(** * Rules engine of zeeze-cards (packages/game-engine)

    Shallow embedding of the TypeScript game engine: [types.ts] (data
    model), [abilities.ts], [mana.ts], [combat.ts] (which also contains the
    phase controller), and [engine.ts].

    JavaScript numbers are modelled as [Z] (all the quantities involved are
    small integers), strings as [string], arrays as lists, [undefined] /
    thrown errors through [option] and [Result].  Timestamps ([new Date()],
    [Date.now()]) are passed in explicitly as [Z] milliseconds.

    Most transitions are modelled as functions on values.  JavaScript
    objects, however, are shared by reference, and several functions of the
    engine write to objects reachable from the state they receive; the
    module [Heap] at the end models that store explicitly for the
    transitions where it matters. *)

From Stdlib Require Import ZArith Lia QArith Qround Ascii.
From stdpp Require Import base list strings pretty gmap.

Open Scope Z_scope.

(* ------------------------------------------------------------------ *)
(** ** types.ts *)

Inductive CardClass :=
  Creature | Sorcery | Instant | Artifact | Enchantment | Land | Planeswalker.

Inductive AbilityKind := Keyword | Activated | Triggered | Static.

Inductive Phase :=
  | untap | upkeep | draw | main1 | combat_begin
  | combat_declare_attackers | combat_declare_blockers | combat_damage
  | combat_end | main2 | end_.

(** [Zone]: the string tags "library" ... "stack". *)
Inductive Zone := library | hand | battlefield | graveyard | exile | stack_zone.

Record ManaPool := mkManaPool {
  W : Z; U : Z; B : Z; R : Z; G : Z; C : Z }.

Record ManaCost := mkManaCost {
  cW : Z; cU : Z; cB : Z; cR : Z; cG : Z; cC : Z; generic : Z }.

Record CardAbility := mkCardAbility {
  ab_id : Z; code : string; ab_name : string; kind : AbilityKind }.

(** [CardTemplate]; [power]/[toughness] are optional fields. *)
Record CardTemplate := mkCardTemplate {
  t_id : Z;
  t_slug : string;
  t_name : string;
  class : CardClass;
  manaCost : string;
  power : option Z;
  toughness : option Z;
  abilities : list CardAbility }.

Record Counters := mkCounters {
  plusOnePlusOne : Z;
  minusOneMinusOne : Z;
  otherCounters : list (string * Z) }.

Record CardInPlay := mkCardInPlay {
  instanceId : string;
  template : CardTemplate;
  zone : Zone;
  ownerId : string;
  controllerId : string;
  isTapped : bool;
  counters : Counters;
  damageMarked : Z;
  summoningSickness : bool }.

Record Zones := mkZones {
  z_library : list CardInPlay;
  z_hand : list CardInPlay;
  z_battlefield : list CardInPlay;
  z_graveyard : list CardInPlay;
  z_exile : list CardInPlay }.

Record Player := mkPlayer {
  p_id : string;
  p_name : string;
  life : Z;
  manaPool : ManaPool;
  maxHandSize : Z;
  hasPlayedLand : bool;
  hasPriority : bool;
  zones : Zones }.

Record StackItem := mkStackItem {
  si_id : string; si_targets : list string; si_resolved : bool }.

Record Attacker := mkAttacker {
  a_instanceId : string;
  defendingPlayerId : string;
  blockedBy : list string }.

Record Blocker := mkBlocker {
  b_instanceId : string;
  blocking : string }.

Inductive CombatStep := declare_attackers | declare_blockers | damage | end_step.

(** [step] is [null] outside combat: [None]. *)
Record CombatState := mkCombatState {
  attackers : list Attacker;
  blockers : list Blocker;
  step : option CombatStep }.

Inductive Status := waiting | in_progress | completed.

Record GameState := mkGameState {
  g_id : string;
  players : list Player;
  currentPlayerIndex : nat;
  activePlayerId : string;
  priorityPlayerId : string;
  phase : Phase;
  turn : Z;
  stack : list StackItem;
  combat : CombatState;
  status : Status;
  winner : option string;
  createdAt : Z;
  updatedAt : Z }.

(** A thrown [Error] is [Err msg]. *)
Inductive Result (A : Type) := Ok (a : A) | Err (msg : string).
Arguments Ok {A} a.
Arguments Err {A} msg.

Definition rbind {A B} (m : Result A) (k : A -> Result B) : Result B :=
  match m with Ok a => k a | Err e => Err e end.
Global Instance Result_ret : MRet Result := @Ok.
Global Instance Result_bind : MBind Result := fun A B k m => rbind m k.

(* ------------------------------------------------------------------ *)
(** ** abilities.ts *)

Definition hasAbility (card : CardInPlay) (abilityCode : string) : bool :=
  existsb (fun ability => String.eqb (code ability) abilityCode)
    (abilities (template card)).

Definition hasFlying (card : CardInPlay) := hasAbility card "FLYING".
Definition hasHaste (card : CardInPlay) := hasAbility card "HASTE".
Definition hasVigilance (card : CardInPlay) := hasAbility card "VIGILANCE".
Definition hasTrample (card : CardInPlay) := hasAbility card "TRAMPLE".
Definition hasDoubleStrike (card : CardInPlay) := hasAbility card "DOUBLE_STRIKE".
Definition hasFirstStrike (card : CardInPlay) :=
  hasAbility card "FIRST_STRIKE" || hasDoubleStrike card.
Definition hasDeathtouch (card : CardInPlay) := hasAbility card "DEATHTOUCH".
Definition hasLifelink (card : CardInPlay) := hasAbility card "LIFELINK".
Definition hasDefender (card : CardInPlay) := hasAbility card "DEFENDER".

Definition isCreature (c : CardClass) : bool :=
  match c with Creature => true | _ => false end.

Definition canAttack (card : CardInPlay) : bool :=
  if negb (isCreature (class (template card))) then false
  else if isTapped card then false
  else if hasDefender card then false
  else if summoningSickness card && negb (hasHaste card) then false
  else true.

Definition canBlock (blocker attacker : CardInPlay) : bool :=
  if negb (isCreature (class (template blocker))) then false
  else if isTapped blocker then false
  else if hasFlying attacker then
    (if negb (hasFlying blocker) && negb (hasAbility blocker "REACH")
     then false else true)
  else true.

(** [!card.template.power]: [undefined] and [0] are both falsy. *)
Definition falsy (v : option Z) : bool :=
  match v with None => true | Some p => Z.eqb p 0 end.

Definition getPower (card : CardInPlay) : Z :=
  if falsy (power (template card)) then 0
  else
    let power0 := default 0 (power (template card)) in
    let power1 := power0 + plusOnePlusOne (counters card) in
    let power2 := power1 - minusOneMinusOne (counters card) in
    Z.max 0 power2.

Definition getToughness (card : CardInPlay) : Z :=
  if falsy (toughness (template card)) then 0
  else
    let toughness0 := default 0 (toughness (template card)) in
    let toughness1 := toughness0 + plusOnePlusOne (counters card) in
    let toughness2 := toughness1 - minusOneMinusOne (counters card) in
    Z.max 0 toughness2.

Definition shouldDie (card : CardInPlay) : bool :=
  let t := getToughness card in
  if t <=? 0 then true
  else if t <=? damageMarked card then true
  else false.

(* ------------------------------------------------------------------ *)
(** ** mana.ts *)

Definition createEmptyManaPool : ManaPool := mkManaPool 0 0 0 0 0 0.

(** [costString[i]]: the one-character string at [i], [undefined] past
    the end. *)
Definition charAt (s : string) (i : nat) : option string :=
  match String.get i s with
  | Some a => Some (String a EmptyString)
  | None => None
  end.

(** [/[0-9]/.test(x)] *)
Definition isDigitAscii (a : Ascii.ascii) : bool :=
  let n := Ascii.nat_of_ascii a in (48 <=? n)%nat && (n <=? 57)%nat.

Fixpoint testDigit (x : string) : bool :=
  match x with
  | EmptyString => false
  | String a r => isDigitAscii a || testDigit r
  end.

(** [char && ...]: a defined, non-empty string is truthy. *)
Definition truthyStr (x : option string) : bool :=
  match x with Some (String _ _) => true | _ => false end.

(** [parseInt(numStr, 10)]: the value of the leading run of decimal digits;
    [None] is [NaN] (no leading digit). *)
Fixpoint parseIntDigits (x : string) (acc : Z) : Z :=
  match x with
  | EmptyString => acc
  | String a r =>
      if isDigitAscii a
      then parseIntDigits r (acc * 10 + (Z.of_nat (Ascii.nat_of_ascii a) - 48))
      else acc
  end.

Definition parseInt10 (x : string) : option Z :=
  match x with
  | String a _ => if isDigitAscii a then Some (parseIntDigits x 0) else None
  | EmptyString => None
  end.

Definition addCharStr (numStr : string) (c : option string) : string :=
  numStr +:+ default "undefined" c.

Definition cost_incr (cost : ManaCost) (ch : string) : ManaCost :=
  let '(mkManaCost w u b r g c gen) := cost in
  if String.eqb ch "W" then mkManaCost (w + 1) u b r g c gen
  else if String.eqb ch "U" then mkManaCost w (u + 1) b r g c gen
  else if String.eqb ch "B" then mkManaCost w u (b + 1) r g c gen
  else if String.eqb ch "R" then mkManaCost w u b (r + 1) g c gen
  else if String.eqb ch "G" then mkManaCost w u b r (g + 1) c gen
  else if String.eqb ch "C" then mkManaCost w u b r g (c + 1) gen
  else cost.

Definition add_generic (cost : ManaCost) (n : Z) : ManaCost :=
  let '(mkManaCost w u b r g c gen) := cost in mkManaCost w u b r g c (gen + n).

(** The inner look-ahead loop of [parseManaString]:
    [while (i + 1 < costString.length && nextChar && /[0-9]/.test(nextChar))
       { i++; numStr += costString[i]; }]
    where [nextChar] was read once, before the loop. *)
Fixpoint lookAhead (costString : string) (nextChar : option string)
    (fuel : nat) (i : nat) (numStr : string) : nat * string :=
  match fuel with
  | O => (i, numStr)
  | S fuel' =>
      if (Nat.ltb (i + 1) (String.length costString))
         && truthyStr nextChar && testDigit (default "" nextChar)
      then lookAhead costString nextChar fuel' (i + 1)
             (addCharStr numStr (charAt costString (i + 1)))
      else (i, numStr)
  end.

(** One iteration of the outer [while (i < costString.length)] loop, up to
    (not including) the final [i++]. *)
Definition parseStep (costString : string) (i : nat) (cost : ManaCost)
    : nat * ManaCost :=
  let char := charAt costString i in
  if truthyStr char && testDigit (default "" char) then
    let numStr := default "" char in
    let nextChar := charAt costString (i + 1) in
    let '(i', numStr') :=
      lookAhead costString nextChar (String.length costString) i numStr in
    (i', match parseInt10 numStr' with
         | Some n => add_generic cost n
         | None => cost (* unreachable: numStr starts with a digit *)
         end)
  else if truthyStr char &&
          existsb (String.eqb (default "" char)) ["W"; "U"; "B"; "R"; "G"; "C"]
  then (i, cost_incr cost (default "" char))
  else (i, cost).

Fixpoint parseLoop (costString : string) (fuel : nat) (i : nat)
    (cost : ManaCost) : ManaCost :=
  match fuel with
  | O => cost
  | S fuel' =>
      if Nat.ltb i (String.length costString) then
        let '(i', cost') := parseStep costString i cost in
        parseLoop costString fuel' (S i') cost'
      else cost
  end.

(** Each iteration increases [i], so [length + 1] rounds suffice. *)
Definition parseManaString (costString : string) : ManaCost :=
  parseLoop costString (S (String.length costString)) 0
    (mkManaCost 0 0 0 0 0 0 0).

Definition calculateCMC (cost : ManaCost) : Z :=
  generic cost + cW cost + cU cost + cB cost + cR cost + cG cost + cC cost.

Definition canPayCost (pool : ManaPool) (cost : ManaCost) : bool :=
  if cW cost >? W pool then false
  else if cU cost >? U pool then false
  else if cB cost >? B pool then false
  else if cR cost >? R pool then false
  else if cG cost >? G pool then false
  else if cC cost >? C pool then false
  else
    let coloredUsed := cW cost + cU cost + cB cost + cR cost + cG cost + cC cost in
    let totalAvailable := W pool + U pool + B pool + R pool + G pool + C pool in
    let remainingAfterColored := totalAvailable - coloredUsed in
    remainingAfterColored >=? generic cost.

Inductive CardColor := cWhite | cBlue | cBlack | cRed | cGreen | cColorless.

Definition poolGet (p : ManaPool) (c : CardColor) : Z :=
  match c with
  | cWhite => W p | cBlue => U p | cBlack => B p
  | cRed => R p | cGreen => G p | cColorless => C p
  end.

Definition poolSet (p : ManaPool) (c : CardColor) (v : Z) : ManaPool :=
  let '(mkManaPool w u b r g cl) := p in
  match c with
  | cWhite => mkManaPool v u b r g cl
  | cBlue => mkManaPool w v b r g cl
  | cBlack => mkManaPool w u v r g cl
  | cRed => mkManaPool w u b v g cl
  | cGreen => mkManaPool w u b r v cl
  | cColorless => mkManaPool w u b r g v
  end.

(** [for (const color of colors) { if (genericRemaining <= 0) break; ... }] *)
Fixpoint payGeneric (colors : list CardColor) (newPool : ManaPool)
    (genericRemaining : Z) : ManaPool :=
  match colors with
  | [] => newPool
  | color :: rest =>
      if genericRemaining <=? 0 then newPool
      else
        let used := Z.min genericRemaining (poolGet newPool color) in
        payGeneric rest (poolSet newPool color (poolGet newPool color - used))
          (genericRemaining - used)
  end.

Definition payManaCost (pool : ManaPool) (cost : ManaCost) : option ManaPool :=
  if negb (canPayCost pool cost) then None
  else
    let newPool := mkManaPool (W pool - cW cost) (U pool - cU cost)
                     (B pool - cB cost) (R pool - cR cost)
                     (G pool - cG cost) (C pool - cC cost) in
    let genericRemaining := generic cost in
    let colorlessUsed := Z.min genericRemaining (C newPool) in
    let newPool := poolSet newPool cColorless (C newPool - colorlessUsed) in
    let genericRemaining := genericRemaining - colorlessUsed in
    Some (payGeneric [cWhite; cBlue; cBlack; cRed; cGreen] newPool genericRemaining).

Definition emptyManaPool (_pool : ManaPool) : ManaPool := createEmptyManaPool.

Definition getTotalMana (pool : ManaPool) : Z :=
  W pool + U pool + B pool + R pool + G pool + C pool.

Fixpoint repeatStr (x : string) (n : nat) : string :=
  match n with O => EmptyString | S n' => x +:+ repeatStr x n' end.

(** [n.toString()] for a non-negative integer. *)
Definition numToString (n : Z) : string := pretty (Z.to_N n).

Definition formatManaCost (cost : ManaCost) : string :=
  let result := "" in
  let result := if generic cost >? 0 then result +:+ numToString (generic cost) else result in
  let result := if cW cost >? 0 then result +:+ repeatStr "W" (Z.to_nat (cW cost)) else result in
  let result := if cU cost >? 0 then result +:+ repeatStr "U" (Z.to_nat (cU cost)) else result in
  let result := if cB cost >? 0 then result +:+ repeatStr "B" (Z.to_nat (cB cost)) else result in
  let result := if cR cost >? 0 then result +:+ repeatStr "R" (Z.to_nat (cR cost)) else result in
  let result := if cG cost >? 0 then result +:+ repeatStr "G" (Z.to_nat (cG cost)) else result in
  let result := if cC cost >? 0 then result +:+ repeatStr "C" (Z.to_nat (cC cost)) else result in
  match result with EmptyString => "0" | _ => result end.

(* ------------------------------------------------------------------ *)
(** ** Record updates ([{ ...x, f: v }] spread syntax) *)

Definition set_players (s : GameState) (ps : list Player) : GameState :=
  mkGameState (g_id s) ps (currentPlayerIndex s) (activePlayerId s)
    (priorityPlayerId s) (phase s) (turn s) (stack s) (combat s) (status s)
    (winner s) (createdAt s) (updatedAt s).

Definition set_combat (s : GameState) (c : CombatState) : GameState :=
  mkGameState (g_id s) (players s) (currentPlayerIndex s) (activePlayerId s)
    (priorityPlayerId s) (phase s) (turn s) (stack s) c (status s)
    (winner s) (createdAt s) (updatedAt s).

Definition set_updatedAt (s : GameState) (t : Z) : GameState :=
  mkGameState (g_id s) (players s) (currentPlayerIndex s) (activePlayerId s)
    (priorityPlayerId s) (phase s) (turn s) (stack s) (combat s) (status s)
    (winner s) (createdAt s) t.

Definition set_priority (s : GameState) (pid : string) : GameState :=
  mkGameState (g_id s) (players s) (currentPlayerIndex s) (activePlayerId s)
    pid (phase s) (turn s) (stack s) (combat s) (status s)
    (winner s) (createdAt s) (updatedAt s).

Definition set_result (s : GameState) (st : Status) (w : option string) : GameState :=
  mkGameState (g_id s) (players s) (currentPlayerIndex s) (activePlayerId s)
    (priorityPlayerId s) (phase s) (turn s) (stack s) (combat s) st
    w (createdAt s) (updatedAt s).

Definition set_life (p : Player) (l : Z) : Player :=
  mkPlayer (p_id p) (p_name p) l (manaPool p) (maxHandSize p)
    (hasPlayedLand p) (hasPriority p) (zones p).

Definition set_manaPool (p : Player) (m : ManaPool) : Player :=
  mkPlayer (p_id p) (p_name p) (life p) m (maxHandSize p)
    (hasPlayedLand p) (hasPriority p) (zones p).

Definition set_hasPlayedLand (p : Player) (b : bool) : Player :=
  mkPlayer (p_id p) (p_name p) (life p) (manaPool p) (maxHandSize p)
    b (hasPriority p) (zones p).

Definition set_zones (p : Player) (z : Zones) : Player :=
  mkPlayer (p_id p) (p_name p) (life p) (manaPool p) (maxHandSize p)
    (hasPlayedLand p) (hasPriority p) z.

Definition set_library (z : Zones) (l : list CardInPlay) : Zones :=
  mkZones l (z_hand z) (z_battlefield z) (z_graveyard z) (z_exile z).
Definition set_hand (z : Zones) (l : list CardInPlay) : Zones :=
  mkZones (z_library z) l (z_battlefield z) (z_graveyard z) (z_exile z).
Definition set_battlefield (z : Zones) (l : list CardInPlay) : Zones :=
  mkZones (z_library z) (z_hand z) l (z_graveyard z) (z_exile z).
Definition set_graveyard (z : Zones) (l : list CardInPlay) : Zones :=
  mkZones (z_library z) (z_hand z) (z_battlefield z) l (z_exile z).

Definition set_zone (c : CardInPlay) (zn : Zone) : CardInPlay :=
  mkCardInPlay (instanceId c) (template c) zn (ownerId c) (controllerId c)
    (isTapped c) (counters c) (damageMarked c) (summoningSickness c).

Definition set_isTapped (c : CardInPlay) (b : bool) : CardInPlay :=
  mkCardInPlay (instanceId c) (template c) (zone c) (ownerId c) (controllerId c)
    b (counters c) (damageMarked c) (summoningSickness c).

Definition set_damageMarked (c : CardInPlay) (d : Z) : CardInPlay :=
  mkCardInPlay (instanceId c) (template c) (zone c) (ownerId c) (controllerId c)
    (isTapped c) (counters c) d (summoningSickness c).

Definition set_summoningSickness (c : CardInPlay) (b : bool) : CardInPlay :=
  mkCardInPlay (instanceId c) (template c) (zone c) (ownerId c) (controllerId c)
    (isTapped c) (counters c) (damageMarked c) b.

(* ------------------------------------------------------------------ *)
(** ** Phase and turn management (second half of combat.ts) *)

Global Instance Phase_eq_dec : EqDecision Phase.
Proof. solve_decision. Defined.
Global Instance Status_eq_dec : EqDecision Status.
Proof. solve_decision. Defined.

Definition phaseOrder : list Phase :=
  [untap; upkeep; draw; main1; combat_begin; combat_declare_attackers;
   combat_declare_blockers; combat_damage; combat_end; main2; end_].

(** [Array.prototype.indexOf]: [None] is [-1]. *)
Fixpoint indexOf (xs : list Phase) (x : Phase) : option nat :=
  match xs with
  | [] => None
  | y :: ys => if decide (y = x) then Some O
               else option_map S (indexOf ys x)
  end.

Definition getNextPhase (currentPhase : Phase) : Phase :=
  match indexOf phaseOrder currentPhase with
  | None => untap
  | Some currentIndex =>
      if Nat.eqb currentIndex (length phaseOrder - 1) then untap
      else default untap (phaseOrder !! S currentIndex)
  end.

Definition isMainPhase (p : Phase) : bool :=
  bool_decide (p = main1) || bool_decide (p = main2).

(** [phase.startsWith("combat_")] *)
Definition isCombatPhase (p : Phase) : bool :=
  match p with
  | combat_begin | combat_declare_attackers | combat_declare_blockers
  | combat_damage | combat_end => true
  | _ => false
  end.

(** The per-player update of [advancePhase]: [state.players.map((player,
    index) => ...)]. *)
Definition untapCard (card : CardInPlay) : CardInPlay :=
  set_summoningSickness (set_isTapped card false) false.

Definition advancePlayer (nextPhase : Phase) (newPlayerIndex : nat)
    (index : nat) (player : Player) : Player :=
  let updatedPlayer := player in
  let updatedPlayer :=
    if bool_decide (nextPhase = untap) && Nat.eqb index newPlayerIndex
    then set_zones updatedPlayer
           (set_battlefield (zones updatedPlayer)
              (map untapCard (z_battlefield (zones player))))
    else updatedPlayer in
  let updatedPlayer :=
    if bool_decide (nextPhase = draw) && Nat.eqb index newPlayerIndex
    then
      let library0 := z_library (zones player) in
      let hand0 := z_hand (zones player) in
      let '(library1, hand1) :=
        match library0 with
        | drawnCard :: rest => (rest, hand0 ++ [set_zone drawnCard hand])
        | [] => ([], hand0)
        end in
      set_zones updatedPlayer
        (set_hand (set_library (zones updatedPlayer) library1) hand1)
    else updatedPlayer in
  let updatedPlayer :=
    if bool_decide (nextPhase = end_)
    then set_manaPool updatedPlayer (emptyManaPool (manaPool player))
    else updatedPlayer in
  let updatedPlayer :=
    if bool_decide (nextPhase = untap) && Nat.eqb index newPlayerIndex
    then set_hasPlayedLand updatedPlayer false
    else updatedPlayer in
  updatedPlayer.

(** [state.players[newPlayerIndex]!.id] throws a [TypeError] when there is
    no player at that index (no players: the index is [NaN]). *)
Definition advancePhase (now : Z) (state : GameState) : Result GameState :=
  let currentPhase := phase state in
  let nextPhase := getNextPhase currentPhase in
  let newTurn := if bool_decide (currentPhase = end_) then turn state + 1
                 else turn state in
  idx_active ←
    (if bool_decide (currentPhase = end_) then
       let newPlayerIndex :=
         Nat.modulo (currentPlayerIndex state + 1) (length (players state)) in
       match players state !! newPlayerIndex with
       | Some p => Ok (newPlayerIndex, p_id p)
       | None => Err "Cannot read properties of undefined (reading 'id')"
       end
     else Ok (currentPlayerIndex state, activePlayerId state));
  let '(newPlayerIndex, newActivePlayerId) := idx_active in
  let updatedPlayers :=
    imap (advancePlayer nextPhase newPlayerIndex) (players state) in
  let newCombat :=
    if negb (isCombatPhase nextPhase) && isCombatPhase currentPhase
    then mkCombatState [] [] None
    else combat state in
  Ok (mkGameState (g_id state) updatedPlayers newPlayerIndex newActivePlayerId
        newActivePlayerId nextPhase newTurn (stack state) newCombat
        (status state) (winner state) (createdAt state) now).

Fixpoint findIndexPlayer (ps : list Player) (pid : string) : option nat :=
  match ps with
  | [] => None
  | p :: ps' => if String.eqb (p_id p) pid then Some O
                else option_map S (findIndexPlayer ps' pid)
  end.

Definition passPriority (now : Z) (state : GameState) : Result GameState :=
  match findIndexPlayer (players state) (priorityPlayerId state) with
  | None => Ok state
  | Some currentPriorityIndex =>
      let nextPriorityIndex :=
        Nat.modulo (currentPriorityIndex + 1) (length (players state)) in
      match players state !! nextPriorityIndex with
      | None => Err "Cannot read properties of undefined (reading 'id')"
      | Some np =>
          let nextPriorityPlayerId := p_id np in
          if String.eqb nextPriorityPlayerId (activePlayerId state)
             && Nat.eqb (length (stack state)) 0
          then advancePhase now state
          else Ok (set_updatedAt (set_priority state nextPriorityPlayerId) now)
      end
  end.

Inductive ActionType := sorcery | instant | land | ability.

Definition canTakeAction (state : GameState) (playerId : string)
    (actionType : ActionType) : bool :=
  if negb (String.eqb (priorityPlayerId state) playerId) then false
  else match actionType with
       | sorcery | land =>
           String.eqb (activePlayerId state) playerId
           && isMainPhase (phase state) && Nat.eqb (length (stack state)) 0
       | instant | ability => true
       end.

(* ------------------------------------------------------------------ *)
(** ** Object lookup and in-place update

    [xs.find(pred)] returns the first matching object; writing to that
    object ([obj.f = v]) is, on values, updating the first match in place. *)

Fixpoint update_first {A} (pred : A -> bool) (f : A -> A) (xs : list A) : list A :=
  match xs with
  | [] => []
  | x :: xs' => if pred x then f x :: xs' else x :: update_first pred f xs'
  end.

Definition cardIs (id : string) (c : CardInPlay) : bool := String.eqb (instanceId c) id.
Definition playerIs (id : string) (p : Player) : bool := String.eqb (p_id p) id.

Definition findPlayer (ps : list Player) (id : string) : option Player :=
  find (playerIs id) ps.

Definition updatePlayer (ps : list Player) (id : string) (f : Player -> Player)
    : list Player := update_first (playerIs id) f ps.

Definition updateZones (p : Player) (f : Zones -> Zones) : Player :=
  set_zones p (f (zones p)).

(** [state.players.flatMap((p) => p.zones.battlefield)] *)
Definition allBattlefield (ps : list Player) : list CardInPlay :=
  flat_map (fun p => z_battlefield (zones p)) ps.

Definition findCard (ps : list Player) (id : string) : option CardInPlay :=
  find (cardIs id) (allBattlefield ps).

(** Write to the card object found by [findCard]. *)
Fixpoint updateCard (ps : list Player) (id : string) (f : CardInPlay -> CardInPlay)
    : list Player :=
  match ps with
  | [] => []
  | p :: ps' =>
      if existsb (cardIs id) (z_battlefield (zones p))
      then updateZones p (fun z => set_battlefield z
                            (update_first (cardIs id) f (z_battlefield z))) :: ps'
      else p :: updateCard ps' id f
  end.

Definition addDamage (n : Z) (c : CardInPlay) : CardInPlay :=
  set_damageMarked c (damageMarked c + n).
Definition lethalDamage (c : CardInPlay) : CardInPlay :=
  set_damageMarked c (getToughness c).
Definition addLife (n : Z) (p : Player) : Player := set_life p (life p + n).

(* ------------------------------------------------------------------ *)
(** ** combat.ts: damage *)

(** [defender.life -= power] with the optional Lifelink gain that
    follows it, for an unblocked attacker. *)
Definition hitPlayer (ps : list Player) (attacker : Attacker)
    (attackerCard : CardInPlay) (power : Z) : list Player :=
  match findPlayer ps (defendingPlayerId attacker) with
  | None => ps
  | Some _ =>
      let ps := updatePlayer ps (defendingPlayerId attacker) (addLife (- power)) in
      if hasLifelink attackerCard then
        match findPlayer ps (controllerId attackerCard) with
        | Some _ => updatePlayer ps (controllerId attackerCard) (addLife power)
        | None => ps
        end
      else ps
  end.

Definition firstStrikeAttacker (ps : list Player) (attacker : Attacker) : list Player :=
  match findCard ps (a_instanceId attacker) with
  | None => ps
  | Some attackerCard =>
      if negb (hasFirstStrike attackerCard) then ps else
      let power := getPower attackerCard in
      if Nat.ltb 0 (length (blockedBy attacker)) then
        fold_left (fun ps blockerId =>
          match findCard ps blockerId with
          | Some _ =>
              let ps := updateCard ps blockerId (addDamage power) in
              if hasDeathtouch attackerCard
              then updateCard ps blockerId lethalDamage else ps
          | None => ps
          end) (blockedBy attacker) ps
      else hitPlayer ps attacker attackerCard power
  end.

Definition firstStrikeBlocker (ps : list Player) (blocker : Blocker) : list Player :=
  match findCard ps (b_instanceId blocker) with
  | None => ps
  | Some blockerCard =>
      if negb (hasFirstStrike blockerCard) then ps else
      match findCard ps (blocking blocker) with
      | Some _ =>
          let power := getPower blockerCard in
          let ps := updateCard ps (blocking blocker) (addDamage power) in
          if hasDeathtouch blockerCard
          then updateCard ps (blocking blocker) lethalDamage else ps
      | None => ps
      end
  end.

Definition resolveFirstStrikeDamage (state : GameState) : GameState :=
  let ps := fold_left firstStrikeAttacker (attackers (combat state)) (players state) in
  let ps := fold_left firstStrikeBlocker (blockers (combat state)) ps in
  set_players state ps.

(** The loop over [attacker.blockedBy] of the regular pass, threading
    [remainingDamage]. *)
Definition assignToBlockers (attackerCard : CardInPlay)
    (acc : list Player * Z) (blockerId : string) : list Player * Z :=
  let '(ps, remainingDamage) := acc in
  match findCard ps blockerId with
  | Some blockerCard =>
      let damageToBlocker := Z.min (getToughness blockerCard) remainingDamage in
      let ps := updateCard ps blockerId (addDamage damageToBlocker) in
      let remainingDamage := remainingDamage - damageToBlocker in
      let ps := if hasDeathtouch attackerCard
                then updateCard ps blockerId lethalDamage else ps in
      (ps, remainingDamage)
  | None => (ps, remainingDamage)
  end.

Definition regularAttacker (ps : list Player) (attacker : Attacker) : list Player :=
  match findCard ps (a_instanceId attacker) with
  | None => ps
  | Some attackerCard =>
      if hasFirstStrike attackerCard && negb (hasDoubleStrike attackerCard) then ps
      else
      let power := getPower attackerCard in
      if Nat.ltb 0 (length (blockedBy attacker)) then
        let '(ps, remainingDamage) :=
          fold_left (assignToBlockers attackerCard) (blockedBy attacker) (ps, power) in
        let ps :=
          if hasTrample attackerCard && (remainingDamage >? 0) then
            match findPlayer ps (defendingPlayerId attacker) with
            | Some _ => updatePlayer ps (defendingPlayerId attacker)
                          (addLife (- remainingDamage))
            | None => ps
            end
          else ps in
        if hasLifelink attackerCard then
          match findPlayer ps (controllerId attackerCard) with
          | Some _ => updatePlayer ps (controllerId attackerCard) (addLife power)
          | None => ps
          end
        else ps
      else hitPlayer ps attacker attackerCard power
  end.

Definition regularBlocker (ps : list Player) (blocker : Blocker) : list Player :=
  match findCard ps (b_instanceId blocker) with
  | None => ps
  | Some blockerCard =>
      if hasFirstStrike blockerCard && negb (hasDoubleStrike blockerCard) then ps
      else
      match findCard ps (blocking blocker) with
      | Some _ =>
          let power := getPower blockerCard in
          let ps := updateCard ps (blocking blocker) (addDamage power) in
          let ps := if hasDeathtouch blockerCard
                    then updateCard ps (blocking blocker) lethalDamage else ps in
          if hasLifelink blockerCard then
            match findPlayer ps (controllerId blockerCard) with
            | Some _ => updatePlayer ps (controllerId blockerCard) (addLife power)
            | None => ps
            end
          else ps
      | None => ps
      end
  end.

Definition resolveRegularDamage (state : GameState) : GameState :=
  let ps := fold_left regularAttacker (attackers (combat state)) (players state) in
  let ps := fold_left regularBlocker (blockers (combat state)) ps in
  set_players state ps.

Definition toGraveyard (creature : CardInPlay) : CardInPlay :=
  set_damageMarked (set_zone creature graveyard) 0.

Definition cleanupPlayer (player : Player) : Player :=
  let battlefield0 := z_battlefield (zones player) in
  let graveyard0 := z_graveyard (zones player) in
  let deadCreatures := filter (fun c => shouldDie c = true) battlefield0 in
  let aliveCreatures := filter (fun c => shouldDie c = false) battlefield0 in
  updateZones player (fun z =>
    set_graveyard (set_battlefield z aliveCreatures)
      (graveyard0 ++ map toGraveyard deadCreatures)).

Definition cleanupDeadCreatures (state : GameState) : GameState :=
  set_players state (map cleanupPlayer (players state)).

Definition set_step (c : CombatState) (s : option CombatStep) : CombatState :=
  mkCombatState (attackers c) (blockers c) s.

Definition resolveCombatDamage (now : Z) (state : GameState) : Result GameState :=
  if negb (bool_decide (phase state = combat_damage))
  then Err "Can only resolve damage during combat damage phase"
  else
    let newState := state in
    let newState := resolveFirstStrikeDamage newState in
    let newState := resolveRegularDamage newState in
    let newState := cleanupDeadCreatures newState in
    Ok (set_updatedAt
          (set_combat newState (set_step (combat newState) (Some end_step))) now).

(* ------------------------------------------------------------------ *)
(** ** combat.ts: declarations (on values) *)

Fixpoint declareAttackersLoop (ps : list Player) (activeId : string)
    (attackingCreatureIds : list string) (defendingPlayerIds : list string)
    (i : nat) (fuel : nat) (acc : list Attacker)
    : Result (list Player * list Attacker) :=
  match fuel with
  | O => Ok (ps, acc)
  | S fuel' =>
    if negb (Nat.ltb i (length attackingCreatureIds)) then Ok (ps, acc) else
    let creatureId := default "" (attackingCreatureIds !! i) in
    let defenderId := defendingPlayerIds !! i in
    if negb (truthyStr (Some creatureId)) then Err "Creature ID at index is undefined"
    else if negb (truthyStr defenderId) then Err "No defender specified for attacker"
    else
    match findPlayer ps activeId with
    | None => Err "Active player not found"
    | Some activePlayer =>
      match find (cardIs creatureId) (z_battlefield (zones activePlayer)) with
      | None => Err "Creature not found on battlefield"
      | Some creature =>
        if negb (canAttack creature) then Err "Creature cannot attack" else
        let ps := if negb (hasVigilance creature)
                  then updatePlayer ps activeId (fun p => updateZones p (fun z =>
                         set_battlefield z (update_first (cardIs creatureId)
                           (fun c => set_isTapped c true) (z_battlefield z))))
                  else ps in
        declareAttackersLoop ps activeId attackingCreatureIds defendingPlayerIds
          (S i) fuel' (acc ++ [mkAttacker creatureId (default "" defenderId) []])
      end
    end
  end.

Definition declareAttackers (now : Z) (state : GameState)
    (attackingCreatureIds defendingPlayerIds : list string) : Result GameState :=
  if negb (bool_decide (phase state = combat_declare_attackers))
  then Err "Can only declare attackers during declare attackers phase" else
  match findPlayer (players state) (activePlayerId state) with
  | None => Err "Active player not found"
  | Some _ =>
    r ← declareAttackersLoop (players state) (activePlayerId state)
          attackingCreatureIds defendingPlayerIds 0
          (length attackingCreatureIds) [];
    let '(ps, attackers0) := r in
    Ok (set_updatedAt (set_combat (set_players state ps)
          (mkCombatState attackers0 (blockers (combat state)) (Some declare_blockers))) now)
  end.

Record Block := mkBlock { blockerId : string; attackerId : string }.

Definition attackerIs (id : string) (a : Attacker) : bool := String.eqb (a_instanceId a) id.

Fixpoint declareBlockersLoop (ps : list Player) (defId : string)
    (blocks : list Block) (blockers0 : list Blocker) (updatedAttackers : list Attacker)
    : Result (list Player * list Blocker * list Attacker) :=
  match blocks with
  | [] => Ok (ps, blockers0, updatedAttackers)
  | block :: rest =>
    match findPlayer ps defId with
    | None => Err "Defending player not found"
    | Some defendingPlayer =>
      let blocker := find (cardIs (blockerId block)) (z_battlefield (zones defendingPlayer)) in
      let attacker := find (attackerIs (attackerId block)) updatedAttackers in
      match blocker, attacker with
      | None, _ => Err "Blocker not found"
      | _, None => Err "Attacker not found"
      | Some blocker, Some _ =>
        match findCard ps (attackerId block) with
        | None => Err "Attacker card not found"
        | Some attackerCard =>
          if negb (canBlock blocker attackerCard) then Err "Creature cannot block" else
          let ps := updatePlayer ps defId (fun p => updateZones p (fun z =>
                      set_battlefield z (update_first (cardIs (blockerId block))
                        (fun c => set_isTapped c true) (z_battlefield z)))) in
          let blockers0 := blockers0 ++ [mkBlocker (blockerId block) (attackerId block)] in
          let updatedAttackers :=
            update_first (attackerIs (attackerId block))
              (fun a => mkAttacker (a_instanceId a) (defendingPlayerId a)
                          (blockedBy a ++ [blockerId block])) updatedAttackers in
          declareBlockersLoop ps defId rest blockers0 updatedAttackers
        end
      end
    end
  end.

(** [state.players.find((p) => p.id !== state.activePlayerId)] *)
Definition findDefender (state : GameState) : option Player :=
  find (fun p => negb (String.eqb (p_id p) (activePlayerId state))) (players state).

Definition declareBlockers (now : Z) (state : GameState) (blocks : list Block)
    : Result GameState :=
  if negb (bool_decide (phase state = combat_declare_blockers))
  then Err "Can only declare blockers during declare blockers phase" else
  match findDefender state with
  | None => Err "Defending player not found"
  | Some defendingPlayer =>
    r ← declareBlockersLoop (players state) (p_id defendingPlayer) blocks []
          (attackers (combat state));
    let '(ps, blockers0, updatedAttackers) := r in
    Ok (set_updatedAt (set_combat (set_players state ps)
          (mkCombatState updatedAttackers blockers0 (Some damage))) now)
  end.

(* ------------------------------------------------------------------ *)
(** ** engine.ts *)

Fixpoint findIndexCard (cs : list CardInPlay) (id : string) : option nat :=
  match cs with
  | [] => None
  | c :: cs' => if cardIs id c then Some O else option_map S (findIndexCard cs' id)
  end.

(** [arr.splice(i, 1)] (removing one element) *)
Fixpoint removeAt {A} (i : nat) (xs : list A) : list A :=
  match xs, i with
  | [], _ => []
  | _ :: xs', O => xs'
  | x :: xs', S i' => x :: removeAt i' xs'
  end.

Definition isLand (c : CardClass) : bool := match c with Land => true | _ => false end.

Definition playLand (now : Z) (state : GameState) (playerId instanceId0 : string)
    : Result GameState :=
  if negb (canTakeAction state playerId land) then Err "Cannot play land at this time" else
  match findPlayer (players state) playerId with
  | None => Err "Player not found"
  | Some player =>
    if hasPlayedLand player then Err "Already played a land this turn" else
    match findIndexCard (z_hand (zones player)) instanceId0 with
    | None => Err "Card not found in hand"
    | Some cardIndex =>
      match z_hand (zones player) !! cardIndex with
      | None => Err "Card not found in hand at index"
      | Some card =>
        if negb (isLand (class (template card))) then Err "Card is not a land" else
        let ps := updatePlayer (players state) playerId (fun p =>
                    set_hasPlayedLand
                      (updateZones p (fun z =>
                         set_battlefield (set_hand z (removeAt cardIndex (z_hand z)))
                           (z_battlefield z ++ [set_zone card battlefield])))
                      true) in
        Ok (set_updatedAt (set_players state ps) now)
      end
    end
  end.

Definition isPermanentClass (c : CardClass) : bool :=
  match c with Creature | Artifact | Enchantment => true | _ => false end.

Definition castSpell (now : Z) (state : GameState) (playerId instanceId0 : string)
    (_targets : option (list string)) : Result GameState :=
  match findPlayer (players state) playerId with
  | None => Err "Player not found"
  | Some player =>
    match findIndexCard (z_hand (zones player)) instanceId0 with
    | None => Err "Card not found in hand"
    | Some cardIndex =>
      match z_hand (zones player) !! cardIndex with
      | None => Err "Card not found in hand at index"
      | Some card =>
        let speed := match class (template card) with Instant => instant | _ => sorcery end in
        if negb (canTakeAction state playerId speed)
        then Err "Cannot cast spell at this time" else
        let manaCost0 := parseManaString (manaCost (template card)) in
        match payManaCost (manaPool player) manaCost0 with
        | None => Err "Not enough mana to cast spell"
        | Some newManaPool =>
          let moved z :=
            let z := set_hand z (removeAt cardIndex (z_hand z)) in
            if isPermanentClass (class (template card)) then
              let card' := set_zone card battlefield in
              let card' := if isCreature (class (template card))
                           then set_summoningSickness card' true else card' in
              set_battlefield z (z_battlefield z ++ [card'])
            else set_graveyard z (z_graveyard z ++ [set_zone card graveyard]) in
          let ps := updatePlayer (players state) playerId (fun p =>
                      updateZones (set_manaPool p newManaPool) moved) in
          Ok (set_updatedAt (set_players state ps) now)
        end
      end
    end
  end.

Definition handleDeclareAttackers (now : Z) (state : GameState) (playerId : string)
    (attackerIds : list string) : Result GameState :=
  if negb (String.eqb (activePlayerId state) playerId) then Err "Not your turn" else
  if negb (bool_decide (phase state = combat_declare_attackers))
  then Err "Not in declare attackers phase" else
  let defendingPlayerIndex :=
    Nat.modulo (currentPlayerIndex state + 1) (length (players state)) in
  match players state !! defendingPlayerIndex with
  | None => Err "Defending player not found"
  | Some defendingPlayer =>
    let defenderIds := map (fun _ => p_id defendingPlayer) attackerIds in
    declareAttackers now state attackerIds defenderIds
  end.

Definition handleDeclareBlockers (now : Z) (state : GameState) (playerId : string)
    (blocks : list Block) : Result GameState :=
  match findDefender state with
  | Some d => if String.eqb (p_id d) playerId then declareBlockers now state blocks
              else Err "You are not the defending player"
  | None => Err "You are not the defending player"
  end.

Definition handleConcede (now : Z) (state : GameState) (playerId : string)
    : Result GameState :=
  let remainingPlayers := filter (fun p => negb (String.eqb (p_id p) playerId)) (players state) in
  match remainingPlayers with
  | [winner0] => Ok (set_updatedAt (set_result state completed (Some (p_id winner0))) now)
  | _ => Ok (set_updatedAt (set_players state remainingPlayers) now)
  end.

(** [checkGameEnd] returns the very object it received in the last case;
    the result type records which case was taken. *)
Definition isAlive (p : Player) : bool := Z.ltb 0 (life p).

Definition checkGameEnd (now : Z) (state : GameState) : GameState :=
  let alivePlayers := filter isAlive (players state) in
  match alivePlayers with
  | [winner0] => set_updatedAt (set_result state completed (Some (p_id winner0))) now
  | [] => set_updatedAt (set_result state completed None) now
  | _ => state
  end.

Inductive GameAction :=
  | PASS_PRIORITY
  | PASS_PHASE
  | PLAY_LAND (instanceId : string)
  | CAST_SPELL (instanceId : string) (targets : option (list string))
  | ACTIVATE_ABILITY (instanceId : string) (abilityCode : string)
      (targets : option (list string))
  | DECLARE_ATTACKERS (attackers : list string)
  | DECLARE_BLOCKERS (blocks : list Block)
  | CONCEDE
  | MULLIGAN.

Definition processAction (now : Z) (state : GameState) (playerId : string)
    (action : GameAction) : Result GameState :=
  if bool_decide (status state = completed) then Err "Game is already completed" else
  match action with
  | PASS_PRIORITY => passPriority now state
  | PASS_PHASE =>
      if negb (String.eqb (priorityPlayerId state) playerId)
      then Err "You don't have priority" else advancePhase now state
  | PLAY_LAND id => playLand now state playerId id
  | CAST_SPELL id targets => castSpell now state playerId id targets
  | DECLARE_ATTACKERS ids => handleDeclareAttackers now state playerId ids
  | DECLARE_BLOCKERS bs => handleDeclareBlockers now state playerId bs
  | CONCEDE => handleConcede now state playerId
  | ACTIVATE_ABILITY _ _ _ | MULLIGAN => Err "Unknown action type"
  end.

(** [shuffleArray]: Fisher-Yates driven by [Math.random()].  The random
    source is the stream [rnd] of the values [Math.random()] returns, read
    from position [k] on; the function also returns the next position. *)
Definition lookupZ {A} (xs : list A) (j : Z) : option A :=
  if j <? 0 then None else xs !! Z.to_nat j.

Fixpoint fisherYates {A} (rnd : nat -> Q) (i : nat) (k : nat) (shuffled : list A)
    : list A * nat :=
  match i with
  | O => (shuffled, k)
  | S i' =>
      let j := Qfloor (rnd k * inject_Z (Z.of_nat i + 1)) in
      let temp := shuffled !! i in
      let swapVal := lookupZ shuffled j in
      let shuffled :=
        match temp, swapVal with
        | Some t, Some sv => <[Z.to_nat j := t]> (<[i := sv]> shuffled)
        | _, _ => shuffled
        end in
      fisherYates rnd i' (S k) shuffled
  end.

Definition shuffleArray {A} (rnd : nat -> Q) (k : nat) (array : list A) : list A * nat :=
  fisherYates rnd (length array - 1) k array.

Record PlayerSpec := mkPlayerSpec {
  ps_id : string; ps_name : string; deck : list CardTemplate }.

Definition mkLibraryCard (pid : string) (cardIndex : nat) (template0 : CardTemplate)
    : CardInPlay :=
  mkCardInPlay (pid +:+ "-card-" +:+ pretty cardIndex) template0 library pid pid
    false (mkCounters 0 0 []) 0 false.

Definition mkGamePlayer (p : PlayerSpec) (index : nat) (shuffledDeck : list CardTemplate)
    : Player :=
  let library0 := imap (mkLibraryCard (ps_id p)) shuffledDeck in
  let hand0 := map (fun card => set_zone card hand) (take 7 library0) in
  let library1 := drop 7 library0 in
  mkPlayer (ps_id p) (ps_name p) 20 createEmptyManaPool 7 false
    (Nat.eqb index 0) (mkZones library1 hand0 [] [] []).

(** [players.map((p, index) => ...)], each shuffle consuming its draws of
    [Math.random()] in turn. *)
Fixpoint mkGamePlayers (rnd : nat -> Q) (index k : nat) (ps : list PlayerSpec)
    : list Player :=
  match ps with
  | [] => []
  | p :: ps' =>
      let '(shuffledDeck, k') := shuffleArray rnd k (deck p) in
      mkGamePlayer p index shuffledDeck :: mkGamePlayers rnd (S index) k' ps'
  end.

(** The clock readings of [Date.now()] and of the two [new Date()] calls. *)
Record Clock := mkClock { now_id : Z; now_created : Z; now_updated : Z }.

Definition createGame (rnd : nat -> Q) (clk : Clock) (players0 : list PlayerSpec)
    : Result GameState :=
  if (length players0 <? 2)%nat || (4 <? length players0)%nat
  then Err "Game must have 2-4 players" else
  let gamePlayers := mkGamePlayers rnd 0 0 players0 in
  match gamePlayers with
  | [] => Err "No players in game"
  | firstPlayer :: _ =>
      Ok (mkGameState ("game-" +:+ pretty (Z.to_N (now_id clk))) gamePlayers 0
            (p_id firstPlayer) (p_id firstPlayer) untap 1 []
            (mkCombatState [] [] None) in_progress None
            (now_created clk) (now_updated clk))
  end.

(* ------------------------------------------------------------------ *)
(** ** The object store

    In JavaScript a [GameState] refers to its players, a player to its
    [zones] object, the zones object to five arrays, and each array to card
    objects; [{ ...state }] copies only the top level.  This module keeps
    those objects in a heap so that writes such as [creature.isTapped = true]
    or [player.zones.hand.splice(i, 1)] are seen by every snapshot that
    reaches the written object.  The [combat] sub-state is kept by value:
    the transitions modelled here build a fresh one. *)

Module Heap.

Abbreviation loc := nat.

Record hZones := mkHZones {
  hz_library : loc; hz_hand : loc; hz_battlefield : loc;
  hz_graveyard : loc; hz_exile : loc }.

Record hPlayer := mkHPlayer {
  hp_id : string; hp_name : string; hp_life : Z; hp_manaPool : ManaPool;
  hp_maxHandSize : Z; hp_hasPlayedLand : bool; hp_hasPriority : bool;
  hp_zones : loc }.

Inductive obj :=
  | OCard (c : CardInPlay)
  | OArray (xs : list loc)
  | OZones (z : hZones)
  | OPlayer (p : hPlayer).

Abbreviation heap := (gmap loc obj).

Record hGameState := mkHGameState {
  hs_id : string; hs_players : loc; hs_currentPlayerIndex : nat;
  hs_activePlayerId : string; hs_priorityPlayerId : string; hs_phase : Phase;
  hs_turn : Z; hs_stack : list StackItem; hs_combat : CombatState;
  hs_status : Status; hs_winner : option string;
  hs_createdAt : Z; hs_updatedAt : Z }.

Definition hs_set_combat_time (s : hGameState) (c : CombatState) (t : Z) : hGameState :=
  mkHGameState (hs_id s) (hs_players s) (hs_currentPlayerIndex s)
    (hs_activePlayerId s) (hs_priorityPlayerId s) (hs_phase s) (hs_turn s)
    (hs_stack s) c (hs_status s) (hs_winner s) (hs_createdAt s) t.

(** Reading a snapshot back as a value: everything reachable from it. *)
Definition read_card (h : heap) (l : loc) : option CardInPlay :=
  match h !! l with Some (OCard c) => Some c | _ => None end.

Definition read_cards (h : heap) (l : loc) : option (list CardInPlay) :=
  match h !! l with Some (OArray xs) => mapM (read_card h) xs | _ => None end.

Definition read_zones (h : heap) (l : loc) : option Zones :=
  match h !! l with
  | Some (OZones z) =>
      lib ← read_cards h (hz_library z);
      hd ← read_cards h (hz_hand z);
      bf ← read_cards h (hz_battlefield z);
      gy ← read_cards h (hz_graveyard z);
      ex ← read_cards h (hz_exile z);
      Some (mkZones lib hd bf gy ex)
  | _ => None
  end.

Definition read_player (h : heap) (l : loc) : option Player :=
  match h !! l with
  | Some (OPlayer p) =>
      z ← read_zones h (hp_zones p);
      Some (mkPlayer (hp_id p) (hp_name p) (hp_life p) (hp_manaPool p)
              (hp_maxHandSize p) (hp_hasPlayedLand p) (hp_hasPriority p) z)
  | _ => None
  end.

Definition read_state (h : heap) (s : hGameState) : option GameState :=
  ps ← (match h !! hs_players s with
        | Some (OArray xs) => mapM (read_player h) xs
        | _ => None end);
  Some (mkGameState (hs_id s) ps (hs_currentPlayerIndex s) (hs_activePlayerId s)
          (hs_priorityPlayerId s) (hs_phase s) (hs_turn s) (hs_stack s)
          (hs_combat s) (hs_status s) (hs_winner s) (hs_createdAt s)
          (hs_updatedAt s)).

(** Computations on the store that may throw.  A thrown error does not
    roll back the writes made before it. *)
Definition M (A : Type) : Type := heap -> heap * Result A.

Definition retM {A} (a : A) : M A := fun h => (h, Ok a).
Definition bindM {A B} (m : M A) (k : A -> M B) : M B :=
  fun h => match m h with
           | (h', Ok a) => k a h'
           | (h', Err e) => (h', Err e)
           end.
Definition throw {A} (msg : string) : M A := fun h => (h, Err msg).
Definition store (l : loc) (o : obj) : M unit := fun h => (<[l := o]> h, Ok tt).

Notation "'do!' x <- m ; k" := (bindM m (fun x => k))
  (at level 200, x name, m at level 100, k at level 200).

Definition typeError : string := "TypeError: Cannot read properties of undefined".

Definition loadCard (l : loc) : M CardInPlay :=
  fun h => match h !! l with Some (OCard c) => (h, Ok c) | _ => (h, Err typeError) end.
Definition loadArray (l : loc) : M (list loc) :=
  fun h => match h !! l with Some (OArray xs) => (h, Ok xs) | _ => (h, Err typeError) end.
Definition loadZones (l : loc) : M hZones :=
  fun h => match h !! l with Some (OZones z) => (h, Ok z) | _ => (h, Err typeError) end.
Definition loadPlayer (l : loc) : M hPlayer :=
  fun h => match h !! l with Some (OPlayer p) => (h, Ok p) | _ => (h, Err typeError) end.

(** [array.find((p) => p.id === id)] over player objects. *)
Fixpoint findPlayerLoc (ls : list loc) (id : string) : M (option (loc * hPlayer)) :=
  match ls with
  | [] => retM None
  | l :: ls' =>
      do! p <- loadPlayer l;
      if String.eqb (hp_id p) id then retM (Some (l, p)) else findPlayerLoc ls' id
  end.

(** [array.find((c) => c.instanceId === id)] over card objects, with the
    index of the match ([findIndex]). *)
Fixpoint findCardLoc (ls : list loc) (id : string) (i : nat)
    : M (option (nat * loc * CardInPlay)) :=
  match ls with
  | [] => retM None
  | l :: ls' =>
      do! c <- loadCard l;
      if cardIs id c then retM (Some (i, l, c)) else findCardLoc ls' id (S i)
  end.

Fixpoint declareAttackersLoop (activePlayer : hPlayer)
    (attackingCreatureIds defendingPlayerIds : list string)
    (i : nat) (fuel : nat) (acc : list Attacker) : M (list Attacker) :=
  match fuel with
  | O => retM acc
  | S fuel' =>
    if negb (Nat.ltb i (length attackingCreatureIds)) then retM acc else
    let creatureId := default "" (attackingCreatureIds !! i) in
    let defenderId := defendingPlayerIds !! i in
    if negb (truthyStr (Some creatureId)) then throw "Creature ID at index is undefined"
    else if negb (truthyStr defenderId) then throw "No defender specified for attacker"
    else
    do! zs <- loadZones (hp_zones activePlayer);
    do! bf <- loadArray (hz_battlefield zs);
    do! found <- findCardLoc bf creatureId 0;
    match found with
    | None => throw "Creature not found on battlefield"
    | Some (_, l, creature) =>
      if negb (canAttack creature) then throw "Creature cannot attack" else
      do! _u <- (if negb (hasVigilance creature)
                 then store l (OCard (set_isTapped creature true)) else retM tt);
      declareAttackersLoop activePlayer attackingCreatureIds defendingPlayerIds
        (S i) fuel' (acc ++ [mkAttacker creatureId (default "" defenderId) []])
    end
  end.

Definition declareAttackers (now : Z) (state : hGameState)
    (attackingCreatureIds defendingPlayerIds : list string) : M hGameState :=
  if negb (bool_decide (hs_phase state = combat_declare_attackers))
  then throw "Can only declare attackers during declare attackers phase" else
  do! pls <- loadArray (hs_players state);
  do! ap <- findPlayerLoc pls (hs_activePlayerId state);
  match ap with
  | None => throw "Active player not found"
  | Some (_, activePlayer) =>
    do! attackers0 <- declareAttackersLoop activePlayer attackingCreatureIds
                        defendingPlayerIds 0 (length attackingCreatureIds) [];
    retM (hs_set_combat_time state
            (mkCombatState attackers0 (blockers (hs_combat state)) (Some declare_blockers))
            now)
  end.

Definition hcanTakeLand (state : hGameState) (playerId : string) : bool :=
  String.eqb (hs_priorityPlayerId state) playerId
  && String.eqb (hs_activePlayerId state) playerId
  && isMainPhase (hs_phase state) && Nat.eqb (length (hs_stack state)) 0.

Definition set_hp_hasPlayedLand (p : hPlayer) (b : bool) : hPlayer :=
  mkHPlayer (hp_id p) (hp_name p) (hp_life p) (hp_manaPool p) (hp_maxHandSize p)
    b (hp_hasPriority p) (hp_zones p).

Definition playLand (now : Z) (state : hGameState) (playerId instanceId0 : string)
    : M hGameState :=
  if negb (hcanTakeLand state playerId) then throw "Cannot play land at this time" else
  do! pls <- loadArray (hs_players state);
  do! fp <- findPlayerLoc pls playerId;
  match fp with
  | None => throw "Player not found"
  | Some (pl, player) =>
    if hp_hasPlayedLand player then throw "Already played a land this turn" else
    do! zs <- loadZones (hp_zones player);
    do! handArr <- loadArray (hz_hand zs);
    do! fc <- findCardLoc handArr instanceId0 0;
    match fc with
    | None => throw "Card not found in hand"
    | Some (cardIndex, cl, card) =>
      if negb (isLand (class (template card))) then throw "Card is not a land" else
      (* player.zones.hand.splice(cardIndex, 1) *)
      do! handArr' <- loadArray (hz_hand zs);
      do! _u1 <- store (hz_hand zs) (OArray (removeAt cardIndex handArr'));
      (* card.zone = "battlefield" *)
      do! _u2 <- store cl (OCard (set_zone card battlefield));
      (* player.zones.battlefield.push(card) *)
      do! bfArr <- loadArray (hz_battlefield zs);
      do! _u3 <- store (hz_battlefield zs) (OArray (bfArr ++ [cl]));
      (* player.hasPlayedLand = true *)
      do! player' <- loadPlayer pl;
      do! _u4 <- store pl (OPlayer (set_hp_hasPlayedLand player' true));
      retM (hs_set_combat_time state (hs_combat state) now)
    end
  end.

End Heap.

(* ------------------------------------------------------------------ *)
(** ** Concrete inputs *)

Module Fixtures.

Definition tmpl (name : string) (cls : CardClass) (pw tg : option Z)
    (abil : list string) : CardTemplate :=
  mkCardTemplate 0 name name cls "" pw tg
    (map (fun c => mkCardAbility 0 c c Keyword) abil).

Definition inPlay (id owner : string) (t : CardTemplate) (zn : Zone) : CardInPlay :=
  mkCardInPlay id t zn owner owner false (mkCounters 0 0 []) 0 false.

Definition plr (id : string) (life0 : Z) (pool : ManaPool)
    (lib hd bf : list CardInPlay) : Player :=
  mkPlayer id id life0 pool 7 false false (mkZones lib hd bf [] []).

(** A 5/5 attacker with the given keywords, blocked by a 1/2. *)
Definition striker (abil : list string) : CardInPlay :=
  inPlay "p1-c0" "p1" (tmpl "Striker" Creature (Some 5) (Some 5) abil) battlefield.
Definition wall : CardInPlay :=
  inPlay "p2-c0" "p2" (tmpl "Wall" Creature (Some 1) (Some 2) []) battlefield.

Definition blockedCombat (abil : list string) : GameState :=
  mkGameState "g" [plr "p1" 20 createEmptyManaPool [] [] [striker abil];
                   plr "p2" 20 createEmptyManaPool [] [] [wall]]
    0 "p1" "p1" combat_damage 3 []
    (mkCombatState [mkAttacker "p1-c0" "p2" ["p2-c0"]] [mkBlocker "p2-c0" "p1-c0"]
       (Some damage))
    in_progress None 0 0.

Definition lifeOf (r : Result GameState) (id : string) : option Z :=
  match r with Ok s => option_map life (findPlayer (players s) id) | Err _ => None end.

Definition damageOf (r : Result GameState) (id : string) : option Z :=
  match r with
  | Ok s => option_map damageMarked
              (find (cardIs id) (flat_map (fun p => z_battlefield (zones p) ++
                                                    z_graveyard (zones p)) (players s)))
  | Err _ => None
  end.

(** A 0/1 creature with one +1/+1 counter. *)
Definition zeroPowerPlusOne : CardInPlay :=
  mkCardInPlay "x" (tmpl "Zero" Creature (Some 0) (Some 1) []) battlefield "p" "p"
    false (mkCounters 1 0 []) 0 false.

(** A 1/0 creature with one +1/+1 counter. *)
Definition zeroToughnessPlusOne : CardInPlay :=
  mkCardInPlay "y" (tmpl "ZeroT" Creature (Some 1) (Some 0) []) battlefield "p" "p"
    false (mkCounters 1 0 []) 0 false.

End Fixtures.

(* ------------------------------------------------------------------ *)
(** ** Observations used in the statements *)

Definition rmap {A B} (f : A -> B) (r : Result A) : Result B :=
  match r with Ok a => Ok (f a) | Err e => Err e end.

(** Forget the clock readings of a state. *)
Definition eraseUpdated (s : GameState) : GameState := set_updatedAt s 0.
Definition eraseClock (s : GameState) : GameState :=
  mkGameState "" (players s) (currentPlayerIndex s) (activePlayerId s)
    (priorityPlayerId s) (phase s) (turn s) (stack s) (combat s) (status s)
    (winner s) 0 0.

(** The five zone collections of a player, in declaration order. *)
Definition player_cards (p : Player) : list CardInPlay :=
  z_library (zones p) ++ z_hand (zones p) ++ z_battlefield (zones p)
  ++ z_graveyard (zones p) ++ z_exile (zones p).

Definition all_cards (ps : list Player) : list CardInPlay := flat_map player_cards ps.

(** Every card of a collection names that collection in its [zone] field. *)
Definition zones_ok (p : Player) : Prop :=
  Forall (fun c => zone c = library) (z_library (zones p)) /\
  Forall (fun c => zone c = hand) (z_hand (zones p)) /\
  Forall (fun c => zone c = battlefield) (z_battlefield (zones p)) /\
  Forall (fun c => zone c = graveyard) (z_graveyard (zones p)) /\
  Forall (fun c => zone c = exile) (z_exile (zones p)).

(** The zone-consistency invariant: zone fields agree with the collections,
    and no instance identifier occurs twice among all collections of all
    players. *)
Definition zone_invariant (ps : list Player) : Prop :=
  Forall zones_ok ps /\ NoDup (map instanceId (all_cards ps)).

Module Fixtures2.
Import Fixtures.

Definition pooled : ManaPool := mkManaPool 1 0 0 2 0 0.

Definition main2State : GameState :=
  mkGameState "g" [plr "p1" 20 pooled [] [] []; plr "p2" 20 pooled [] [] []]
    0 "p1" "p1" main2 4 [] (mkCombatState [] [] None) in_progress None 0 0.

Definition lifeState (lifes : list Z) : GameState :=
  mkGameState "g"
    (imap (fun i l => plr ("p" +:+ pretty (S i)) l createEmptyManaPool [] [] []) lifes)
    0 "p1" "p1" main1 2 [] (mkCombatState [] [] None) in_progress None 0 0.

Definition endState : GameState :=
  mkGameState "g"
    [plr "p1" 20 pooled [] [] [];
     mkPlayer "p2" "p2" 20 pooled 7 true false
       (mkZones [] [] [set_isTapped (set_summoningSickness wall true) true] [] [])]
    0 "p1" "p1" end_ 4 [] (mkCombatState [] [] None) in_progress None 0 0.

Definition twoCardDeck : list CardTemplate :=
  [tmpl "Alpha" Creature (Some 1) (Some 1) []; tmpl "Beta" Land None None []].

Definition specs : list PlayerSpec :=
  [mkPlayerSpec "p1" "A" twoCardDeck; mkPlayerSpec "p2" "B" twoCardDeck].

(** Two players sharing the id ["p1"]: [createGame] accepts them. *)
Definition dupSpecs : list PlayerSpec :=
  [mkPlayerSpec "p1" "A" twoCardDeck; mkPlayerSpec "p1" "B" twoCardDeck].

Definition handNames (r : Result GameState) : list (list string) :=
  match r with
  | Ok s => map (fun p => map (fun c => t_name (template c)) (z_hand (zones p))) (players s)
  | Err _ => []
  end.

(** A game played from [createGame]: three phase steps to [main1], a land
    and a creature from the opening hand, four phase steps to
    [combat_damage], and the damage step. *)
Definition zeroRandom : nat -> Q := fun _ => 0%Q.
Definition clock0 : Clock := mkClock 0 0 0.

Definition unwrapState (r : Result GameState) : GameState :=
  match r with Ok s => s | Err _ => main2State end.

Definition game0 : GameState := unwrapState (createGame zeroRandom clock0 specs).
Definition game1 : GameState := unwrapState (advancePhase 0 game0).
Definition game2 : GameState := unwrapState (advancePhase 0 game1).
Definition game3 : GameState := unwrapState (advancePhase 0 game2).
Definition game4 : GameState := unwrapState (playLand 0 game3 "p1" "p1-card-0").
Definition game5 : GameState := unwrapState (castSpell 0 game4 "p1" "p1-card-1" None).
Definition game6 : GameState := unwrapState (advancePhase 0 game5).
Definition game7 : GameState := unwrapState (advancePhase 0 game6).
Definition game8 : GameState := unwrapState (advancePhase 0 game7).
Definition game9 : GameState := unwrapState (advancePhase 0 game8).
Definition game10 : GameState := unwrapState (resolveCombatDamage 0 game9).

End Fixtures2.

Module HeapFixtures.
Import Fixtures Heap.

Definition bear : CardInPlay :=
  inPlay "p1-c0" "p1" (tmpl "Bear" Creature (Some 2) (Some 2) []) battlefield.
Definition forest : CardInPlay :=
  inPlay "p1-c1" "p1" (tmpl "Forest" Land None None []) hand.

Definition hplayer (id : string) (zl : loc) : obj :=
  OPlayer (mkHPlayer id id 20 createEmptyManaPool 7 false false zl).

(** Two players; p1 has [bear] on the battlefield and [forest] in hand. *)
Definition h0 : heap :=
  list_to_map
    [(1%nat, OArray [2; 3]%nat);
     (2%nat, hplayer "p1" 4); (3%nat, hplayer "p2" 5);
     (4%nat, OZones (mkHZones 10 11 12 13 14));
     (5%nat, OZones (mkHZones 20 21 22 23 24));
     (10%nat, OArray []); (11%nat, OArray [32%nat]); (12%nat, OArray [30%nat]);
     (13%nat, OArray []); (14%nat, OArray []);
     (20%nat, OArray []); (21%nat, OArray []); (22%nat, OArray []);
     (23%nat, OArray []); (24%nat, OArray []);
     (30%nat, OCard bear); (32%nat, OCard forest)].

Definition snapshot (ph : Phase) : hGameState :=
  mkHGameState "g" 1 0 "p1" "p1" ph 2 [] (mkCombatState [] [] None)
    in_progress None 0 0.

(** Observations of a read-back snapshot. *)
Definition p1Battlefield (s : option GameState) : option (list bool) :=
  s ≫= fun s => option_map (fun p => map isTapped (z_battlefield (zones p)))
                  (findPlayer (players s) "p1").
Definition p1Hand (s : option GameState) : option (list string) :=
  s ≫= fun s => option_map (fun p => map instanceId (z_hand (zones p)))
                  (findPlayer (players s) "p1").

Definition isOk {A} (r : Result A) : bool := match r with Ok _ => true | Err _ => false end.

End HeapFixtures.

(* ================================================================== *)
(** * Theorems *)

(** ** The clock only reaches [updatedAt] *)
(* ------------------------------------------------------------------ *)
(** ** Helpers for the further properties *)
Module ExtraDefs.
Import Fixtures Fixtures2.

(** [n] successive [advancePhase] calls. *)
Fixpoint advanceTimes (n : nat) (now : Z) (st : GameState) : Result GameState :=
  match n with
  | O => Ok st
  | S n' => rbind (advancePhase now st) (advanceTimes n' now)
  end.

(** How many of the phases [ph], [getNextPhase ph], ... ([n] of them) are
    the end phase. *)
Fixpoint countEnds (n : nat) (ph : Phase) : nat :=
  match n with
  | O => O
  | S n' => (if bool_decide (ph = end_) then 1 else 0) + countEnds n' (getNextPhase ph)
  end.

(** A player in the upkeep with two cards in the library. *)
Definition upkeepState : GameState :=
  mkGameState "g"
    [plr "p1" 20 createEmptyManaPool [set_zone wall library; set_zone (striker []) library]
       [] [];
     plr "p2" 20 createEmptyManaPool [] [] []]
    0 "p1" "p1" upkeep 3 [] (mkCombatState [] [] None) in_progress None 0 0.

(** Three players in the first main phase; p1 is active and has priority. *)
Definition threePlayers : GameState :=
  mkGameState "g"
    [plr "p1" 20 createEmptyManaPool [] [] []; plr "p2" 20 createEmptyManaPool [] [] [];
     plr "p3" 20 createEmptyManaPool [] [] []]
    0 "p1" "p1" main1 2 [] (mkCombatState [] [] None) in_progress None 0 0.

(** [n] successive [passPriority] calls. *)
Fixpoint passTimes (n : nat) (now : Z) (st : GameState) : Result GameState :=
  match n with
  | O => Ok st
  | S n' => rbind (passPriority now st) (passTimes n' now)
  end.

(** Two players in the first main phase; p1 is active and has priority. *)
Definition twoPlayers : GameState :=
  mkGameState "g"
    [plr "p1" 20 createEmptyManaPool [] [] []; plr "p2" 20 createEmptyManaPool [] [] []]
    0 "p1" "p1" main1 2 [] (mkCombatState [] [] None) in_progress None 0 0.

(** The three-player game after p1 (holding priority) concedes. *)
Definition threeAfterConcede : GameState :=
  unwrapState (processAction 0 threePlayers "p1" CONCEDE).

(** p1 casts its land [p1-card-0] in the first main phase of [game3]. *)
Definition game3p1 : Player :=
  default (plr "" 0 createEmptyManaPool [] [] []) (findPlayer (players game3) "p1").
Definition game3land : CardInPlay := default wall (z_hand (zones game3p1) !! 0%nat).
Definition game3cast : GameState :=
  unwrapState (castSpell 0 game3 "p1" "p1-card-0" None).

(** One character of a cost string outside a number: [cost_incr] on the
    one-character string. *)
Definition letterStep (cost : ManaCost) (a : Ascii.ascii) : ManaCost :=
  cost_incr cost (String a EmptyString).

(** Occurrences of the character [a] in [s]. *)
Definition countChar (a : Ascii.ascii) (s : string) : Z :=
  Z.of_nat (count_occ Ascii.ascii_dec (String.list_ascii_of_string s) a).

(** A 5/5 with the given keywords attacking p2 unblocked. *)
Definition unblockedCombat (abil : list string) : GameState :=
  mkGameState "g" [plr "p1" 20 createEmptyManaPool [] [] [striker abil];
                   plr "p2" 20 createEmptyManaPool [] [] [wall]]
    0 "p1" "p1" combat_damage 3 []
    (mkCombatState [mkAttacker "p1-c0" "p2" []] [] (Some damage))
    in_progress None 0 0.

(** p1's striker can attack; combat has just begun. *)
Definition declareState : GameState :=
  mkGameState "g" [plr "p1" 20 createEmptyManaPool [] [] [striker []];
                   plr "p2" 20 createEmptyManaPool [] [] [wall]]
    0 "p1" "p1" combat_declare_attackers 3 []
    (mkCombatState [] [] (Some declare_attackers)) in_progress None 0 0.
Definition declared : GameState :=
  unwrapState (handleDeclareAttackers 0 declareState "p1" ["p1-c0"]).

(** The state of a player right after [createGame]. *)
Definition fresh_setup (spec : PlayerSpec) (p : Player) : Prop :=
  p_id p = ps_id spec /\ p_name p = ps_name spec /\ life p = 20 /\
  manaPool p = createEmptyManaPool /\ hasPlayedLand p = false /\
  map template (z_library (zones p) ++ z_hand (zones p)) ≡ₚ deck spec /\
  length (z_hand (zones p)) = Nat.min 7 (length (deck spec)) /\
  Forall (fun c => isTapped c = false /\ damageMarked c = 0 /\
                   summoningSickness c = false /\ ownerId c = ps_id spec)
    (z_library (zones p) ++ z_hand (zones p)) /\
  z_battlefield (zones p) = [] /\ z_graveyard (zones p) = [] /\
  z_exile (zones p) = [].

(** Non-negative mana amounts. *)
Definition pool_nonneg (p : ManaPool) : Prop :=
  0 <= W p /\ 0 <= U p /\ 0 <= B p /\ 0 <= R p /\ 0 <= G p /\ 0 <= C p.

Definition cost_nonneg (c : ManaCost) : Prop :=
  0 <= cW c /\ 0 <= cU c /\ 0 <= cB c /\ 0 <= cR c /\ 0 <= cG c /\ 0 <= cC c /\
  0 <= generic c.

(** p1's striker attacks p2, whose wall can block. *)
Definition blockState : GameState :=
  mkGameState "g" [plr "p1" 20 createEmptyManaPool [] [] [striker []];
                   plr "p2" 20 createEmptyManaPool [] [] [wall]]
    0 "p1" "p1" combat_declare_blockers 3 []
    (mkCombatState [mkAttacker "p1-c0" "p2" []] [] (Some declare_blockers))
    in_progress None 0 0.
Definition blocked : GameState :=
  unwrapState (declareBlockers 0 blockState [mkBlock "p2-c0" "p1-c0"]).

End ExtraDefs.

Module ClockLemmas.

Ltac clock_tac :=
  repeat (match goal with
          | |- context [match ?x with _ => _ end] => destruct x eqn:?
          end; simpl); try reflexivity.

Lemma advancePhase_clock now1 now2 st :
  rmap eraseUpdated (advancePhase now1 st) = rmap eraseUpdated (advancePhase now2 st).
Proof. unfold advancePhase, mbind, Result_bind, rbind. clock_tac. Qed.

Lemma resolveCombatDamage_clock now1 now2 st :
  rmap eraseUpdated (resolveCombatDamage now1 st)
  = rmap eraseUpdated (resolveCombatDamage now2 st).
Proof. unfold resolveCombatDamage. clock_tac. Qed.

Lemma processAction_clock now1 now2 st pid a :
  rmap eraseUpdated (processAction now1 st pid a)
  = rmap eraseUpdated (processAction now2 st pid a).
Proof.
  unfold processAction. destruct (bool_decide _); [reflexivity|].
  destruct a.
  - unfold passPriority. clock_tac. apply advancePhase_clock.
  - clock_tac. apply advancePhase_clock.
  - unfold playLand. clock_tac.
  - unfold castSpell. clock_tac.
  - reflexivity.
  - unfold handleDeclareAttackers, declareAttackers, mbind, Result_bind, rbind. clock_tac.
  - unfold handleDeclareBlockers, declareBlockers, mbind, Result_bind, rbind. clock_tac.
  - unfold handleConcede. clock_tac.
  - reflexivity.
Qed.

End ClockLemmas.

(** ** Zone consistency: lemmas *)
Module ZoneLemmas.

Definition pids (p : Player) : list string := map instanceId (player_cards p).

(** One player before and after an operation: zone fields stay consistent and
    the instance identifiers are only rearranged. *)
Definition step_ok (p p' : Player) : Prop :=
  (zones_ok p -> zones_ok p') /\ pids p' ≡ₚ pids p.

Lemma all_ids_flat (ps : list Player) :
  map instanceId (all_cards ps) = flat_map pids ps.
Proof.
  induction ps as [|p ps IH]; [reflexivity|].
  unfold all_cards in *. simpl. rewrite map_app, IH. reflexivity.
Qed.

Lemma Forall2_step_ids (ps ps' : list Player) :
  Forall2 step_ok ps ps' -> flat_map pids ps' ≡ₚ flat_map pids ps.
Proof.
  induction 1 as [|p p' ps ps' [_ Hperm] _ IH]; [reflexivity|].
  simpl. apply Permutation_app; assumption.
Qed.

Lemma Forall2_step_zones (ps ps' : list Player) :
  Forall2 step_ok ps ps' -> Forall zones_ok ps -> Forall zones_ok ps'.
Proof.
  induction 1 as [|p p' ps ps' [Hst _] _ IH]; intros Hz; [constructor|].
  inversion Hz; subst. constructor; auto.
Qed.

Lemma invariant_Forall2 (ps ps' : list Player) :
  Forall2 step_ok ps ps' -> zone_invariant ps -> zone_invariant ps'.
Proof.
  intros HF [Hz Hnd]. split.
  - exact (Forall2_step_zones _ _ HF Hz).
  - rewrite all_ids_flat in *. rewrite (Forall2_step_ids _ _ HF). exact Hnd.
Qed.

Lemma Forall2_update_first_find {A} (Rl : A -> A -> Prop) (pred : A -> bool)
    (f : A -> A) (xs : list A) :
  (forall x, Rl x x) ->
  (forall x, find pred xs = Some x -> Rl x (f x)) ->
  Forall2 Rl xs (update_first pred f xs).
Proof.
  intros Hrefl.
  assert (Hr : forall ys, Forall2 Rl ys ys).
  { induction ys; constructor; auto. }
  induction xs as [|x xs IH]; intros Hf; simpl; [constructor|].
  simpl in Hf. destruct (pred x).
  - constructor; [apply Hf; reflexivity | apply Hr].
  - constructor; [apply Hrefl|]. apply IH. exact Hf.
Qed.

Lemma Forall2_imap {A} (Rl : A -> A -> Prop) (f : nat -> A -> A) (xs : list A) :
  (forall i x, Rl x (f i x)) -> Forall2 Rl xs (imap f xs).
Proof.
  revert f. induction xs as [|x xs IH]; intros f Hf; simpl; constructor; auto.
  apply IH. intros. apply Hf.
Qed.

Lemma Forall2_map_self {A} (Rl : A -> A -> Prop) (f : A -> A) (xs : list A) :
  (forall x, Rl x (f x)) -> Forall2 Rl xs (map f xs).
Proof. intros Hf. induction xs; simpl; constructor; auto. Qed.

Lemma step_ok_refl (p : Player) : step_ok p p.
Proof. split; [auto | reflexivity]. Qed.

(** Identifier and zone of every card: damage, life, tapping and mana leave it. *)
Definition card_key (c : CardInPlay) : string * Zone := (instanceId c, zone c).

Definition pshape (p : Player) :=
  (map card_key (z_library (zones p)), map card_key (z_hand (zones p)),
   map card_key (z_battlefield (zones p)), map card_key (z_graveyard (zones p)),
   map card_key (z_exile (zones p))).

Lemma key_transfer (l l' : list CardInPlay) :
  map card_key l' = map card_key l ->
  map instanceId l' = map instanceId l /\
  (forall z, Forall (fun c => zone c = z) l -> Forall (fun c => zone c = z) l').
Proof.
  revert l'. induction l as [|c l IH]; intros [|c' l'] H; simpl in H;
    try discriminate; [split; auto|].
  injection H as Hid Hz Hrest. destruct (IH l' Hrest) as [Hids Hf].
  simpl. split; [congruence|].
  intros z Hz'. inversion Hz'; subst. constructor; [congruence|]. auto.
Qed.

Lemma shape_step (p p' : Player) : pshape p' = pshape p -> step_ok p p'.
Proof.
  unfold pshape. intros H. injection H as H1 H2 H3 H4 H5.
  apply key_transfer in H1 as [I1 F1]. apply key_transfer in H2 as [I2 F2].
  apply key_transfer in H3 as [I3 F3]. apply key_transfer in H4 as [I4 F4].
  apply key_transfer in H5 as [I5 F5].
  split.
  - intros (Z1 & Z2 & Z3 & Z4 & Z5). repeat split; auto.
  - unfold pids, player_cards. rewrite !map_app, I1, I2, I3, I4, I5. reflexivity.
Qed.

Lemma shapes_Forall2 (ps ps' : list Player) :
  map pshape ps' = map pshape ps -> Forall2 step_ok ps ps'.
Proof.
  revert ps'. induction ps as [|p ps IH]; intros [|p' ps'] H; simpl in H;
    try discriminate; constructor.
  - apply shape_step. congruence.
  - apply IH. congruence.
Qed.

Lemma update_first_map {A B} (g : A -> B) (pred : A -> bool) (f : A -> A) (xs : list A) :
  (forall x, g (f x) = g x) -> map g (update_first pred f xs) = map g xs.
Proof.
  intros Hg. induction xs as [|x xs IH]; simpl; [reflexivity|].
  destruct (pred x); simpl; congruence.
Qed.

Lemma updateCard_shape (ps : list Player) (id : string) (f : CardInPlay -> CardInPlay) :
  (forall c, card_key (f c) = card_key c) ->
  map pshape (updateCard ps id f) = map pshape ps.
Proof.
  intros Hf. induction ps as [|p ps IH]; simpl; [reflexivity|].
  destruct (existsb (cardIs id) (z_battlefield (zones p))); simpl.
  - f_equal. unfold pshape. simpl. rewrite update_first_map by exact Hf. reflexivity.
  - f_equal. exact IH.
Qed.

Lemma updatePlayer_life_shape (ps : list Player) (id : string) (n : Z) :
  map pshape (updatePlayer ps id (addLife n)) = map pshape ps.
Proof. apply update_first_map. reflexivity. Qed.

Lemma addDamage_key n c : card_key (addDamage n c) = card_key c.
Proof. reflexivity. Qed.
Lemma lethalDamage_key c : card_key (lethalDamage c) = card_key c.
Proof. reflexivity. Qed.

(** Instance identifiers [`${p.id}-card-${cardIndex}`] are injective. *)
Definition mkInstanceId (pid : string) (cardIndex : nat) : string :=
  pid +:+ "-card-" +:+ pretty cardIndex.

Lemma mkLibraryCard_id pid i t : instanceId (mkLibraryCard pid i t) = mkInstanceId pid i.
Proof. reflexivity. Qed.

Lemma list_ascii_of_string_app (s1 s2 : string) :
  String.list_ascii_of_string (s1 +:+ s2) = String.list_ascii_of_string s1 ++ String.list_ascii_of_string s2.
Proof.
  induction s1 as [|a s1 IH]; [reflexivity|]. exact (f_equal (cons a) IH).
Qed.

Lemma list_ascii_of_string_inj (s1 s2 : string) :
  String.list_ascii_of_string s1 = String.list_ascii_of_string s2 -> s1 = s2.
Proof.
  intros H. rewrite <- (String.string_of_list_ascii_of_string s1),
    <- (String.string_of_list_ascii_of_string s2), H. reflexivity.
Qed.

Lemma split_at_last {A} (c : A) (x x' y y' : list A) :
  x ++ c :: y = x' ++ c :: y' -> ~ In c y -> ~ In c y' -> x = x' /\ y = y'.
Proof.
  revert x'. induction x as [|a x IH]; intros [|a' x'] H Hy Hy'; simpl in H.
  - injection H as ->. auto.
  - injection H as <- Hrest. exfalso. apply Hy. rewrite Hrest.
    apply in_or_app. right. left. reflexivity.
  - injection H as -> Hrest. exfalso. apply Hy'. rewrite <- Hrest.
    apply in_or_app. right. left. reflexivity.
  - injection H as -> Hrest. destruct (IH x' Hrest Hy Hy') as [-> ->]. auto.
Qed.

Lemma pretty_N_go_no_dash (x : N) (s : string) :
  ~ In "-"%char (String.list_ascii_of_string s) ->
  ~ In "-"%char (String.list_ascii_of_string (pretty_N_go x s)).
Proof.
  revert s. induction (N.lt_wf_0 x) as [x _ IH]; intros s Hs.
  destruct (decide (x = 0)%N) as [->|Hx].
  - rewrite pretty_N_go_0. exact Hs.
  - rewrite pretty_N_go_step by lia. apply IH.
    + apply N.div_lt; lia.
    + simpl. intros [Heq|Hin]; [|exact (Hs Hin)].
      revert Heq. unfold pretty_N_char. repeat case_match; discriminate.
Qed.

Lemma pretty_nat_no_dash (i : nat) :
  ~ In "-"%char (String.list_ascii_of_string (pretty i)).
Proof.
  change (pretty i) with
    (if decide (N.of_nat i = 0%N) then "0" else pretty_N_go (N.of_nat i) "").
  destruct (decide (N.of_nat i = 0%N)).
  - simpl. intros [H|H]; [discriminate|exact H].
  - apply pretty_N_go_no_dash. simpl. tauto.
Qed.

Lemma mkInstanceId_inj (p q : string) (i j : nat) :
  mkInstanceId p i = mkInstanceId q j -> p = q /\ i = j.
Proof.
  unfold mkInstanceId. intros H.
  apply (f_equal String.list_ascii_of_string) in H.
  rewrite !list_ascii_of_string_app in H.
  change (String.list_ascii_of_string "-card-") with
    (["-";"c";"a";"r";"d"]%char ++ ["-"%char]) in H.
  rewrite !app_assoc in H. rewrite <- !(app_assoc _ ["-"%char]) in H.
  simpl in H.
  apply split_at_last in H as [Hx Hy]; try apply pretty_nat_no_dash.
  apply app_inv_tail in Hx. split.
  - apply list_ascii_of_string_inj. exact Hx.
  - apply (inj pretty). apply list_ascii_of_string_inj. exact Hy.
Qed.

Lemma removeAt_delete {A} (i : nat) (xs : list A) : removeAt i xs = delete i xs.
Proof.
  revert i. induction xs as [|x xs IH]; intros [|i]; simpl; try reflexivity.
  f_equal. apply IH.
Qed.

Lemma step_ok_trans (p q r : Player) : step_ok p q -> step_ok q r -> step_ok p r.
Proof.
  intros [Z1 P1] [Z2 P2]. split; [auto|]. etrans; eassumption.
Qed.

(** [hand.splice(i, 1)] followed by a push of the card onto the
    battlefield or the graveyard. *)
Lemma move_from_hand_step (p p' : Player) (i : nat) (card card' : CardInPlay) (toBf : bool) :
  z_hand (zones p) !! i = Some card ->
  instanceId card' = instanceId card ->
  zone card' = (if toBf then battlefield else graveyard) ->
  z_library (zones p') = z_library (zones p) ->
  z_hand (zones p') = delete i (z_hand (zones p)) ->
  z_battlefield (zones p') =
    (if toBf then z_battlefield (zones p) ++ [card'] else z_battlefield (zones p)) ->
  z_graveyard (zones p') =
    (if toBf then z_graveyard (zones p) else z_graveyard (zones p) ++ [card']) ->
  z_exile (zones p') = z_exile (zones p) ->
  step_ok p p'.
Proof.
  intros Hi Hid Hz HL HH HB HG HE.
  pose proof (Permutation_map instanceId (delete_Permutation _ _ _ Hi)) as Hp.
  simpl in Hp. split.
  - intros (Z1 & Z2 & Z3 & Z4 & Z5). unfold zones_ok.
    rewrite HL, HH, HB, HG, HE.
    destruct toBf; repeat split; auto using Forall_delete;
      apply Forall_app; split; auto.
  - unfold pids, player_cards. rewrite HL, HH, HB, HG, HE.
    destruct toBf; rewrite !map_app, Hp; simpl; rewrite Hid; solve_Permutation.
Qed.

(** The draw effect: the library's first card is pushed onto the hand. *)
Lemma draw_step (p p' : Player) (c : CardInPlay) (rest : list CardInPlay) :
  z_library (zones p) = c :: rest ->
  z_library (zones p') = rest ->
  z_hand (zones p') = z_hand (zones p) ++ [set_zone c hand] ->
  z_battlefield (zones p') = z_battlefield (zones p) ->
  z_graveyard (zones p') = z_graveyard (zones p) ->
  z_exile (zones p') = z_exile (zones p) ->
  step_ok p p'.
Proof.
  intros HL0 HL HH HB HG HE. split.
  - intros (Z1 & Z2 & Z3 & Z4 & Z5). unfold zones_ok.
    rewrite HL0 in Z1. apply Forall_cons in Z1 as [Zc Zr].
    rewrite HL, HH, HB, HG, HE. repeat split; auto.
    apply Forall_app; split; auto.
  - unfold pids, player_cards. rewrite HL, HH, HB, HG, HE, HL0.
    rewrite !map_app. simpl. solve_Permutation.
Qed.

Lemma advancePlayer_step (nextPhase : Phase) (newPlayerIndex index : nat) (p : Player) :
  step_ok p (advancePlayer nextPhase newPlayerIndex index p).
Proof.
  unfold advancePlayer.
  destruct (Nat.eqb index newPlayerIndex);
    repeat case_bool_decide; subst; try discriminate; simpl;
    try (apply shape_step; reflexivity).
  - apply shape_step. unfold pshape. simpl. rewrite map_map. reflexivity.
  - destruct (z_library (zones p)) as [|c rest] eqn:HL.
    + apply shape_step. unfold pshape. simpl. rewrite HL. reflexivity.
    + eapply draw_step; simpl; eauto.
Qed.

Lemma filter_bool_split {A} (f : A -> bool) (l : list A) :
  l ≡ₚ filter (fun x => f x = true) l ++ filter (fun x => f x = false) l.
Proof.
  induction l as [|x l IH]; [reflexivity|].
  rewrite !filter_cons. destruct (f x) eqn:E;
    repeat case_decide; try congruence; simpl.
  - constructor. exact IH.
  - apply Permutation_cons_app. exact IH.
Qed.

Lemma Forall_filter_keep {A} (P : A -> Prop) (Q : A -> Prop) `{forall x, Decision (Q x)}
    (l : list A) :
  Forall P l -> Forall P (filter Q l).
Proof.
  induction 1 as [|x l Hx _ IH]; [constructor|].
  rewrite filter_cons. case_decide; [constructor|]; assumption.
Qed.

Lemma cleanupPlayer_step (p : Player) : step_ok p (cleanupPlayer p).
Proof.
  unfold cleanupPlayer, updateZones. split.
  - intros (Z1 & Z2 & Z3 & Z4 & Z5). unfold zones_ok. simpl.
    repeat split; auto.
    + apply Forall_filter_keep. exact Z3.
    + apply Forall_app. split; [exact Z4|].
      apply List.Forall_forall. intros y Hy.
      apply in_map_iff in Hy as (c & <- & _). reflexivity.
  - unfold pids, player_cards. simpl.
    pose proof (Permutation_map instanceId
      (filter_bool_split shouldDie (z_battlefield (zones p)))) as Hp.
    rewrite map_app in Hp.
    rewrite !map_app, map_map. change (fun x => instanceId (toGraveyard x)) with instanceId.
    rewrite Hp. solve_Permutation.
Qed.

Lemma fold_left_shape {B} (f : list Player -> B -> list Player) (xs : list B) (ps : list Player) :
  (forall ps x, map pshape (f ps x) = map pshape ps) ->
  map pshape (fold_left f xs ps) = map pshape ps.
Proof.
  intros Hf. revert ps. induction xs as [|x xs IH]; intros ps; simpl; [reflexivity|].
  rewrite IH. apply Hf.
Qed.

Ltac shape_tac :=
  repeat first
    [ rewrite updatePlayer_life_shape
    | rewrite updateCard_shape by (intros; reflexivity)
    | reflexivity
    | progress cbn [fst snd]
    | progress case_match ].

Lemma hitPlayer_shape ps attacker card power :
  map pshape (hitPlayer ps attacker card power) = map pshape ps.
Proof. unfold hitPlayer. shape_tac. Qed.

Lemma firstStrikeAttacker_shape ps attacker :
  map pshape (firstStrikeAttacker ps attacker) = map pshape ps.
Proof.
  unfold firstStrikeAttacker.
  destruct (findCard ps (a_instanceId attacker)) as [c|]; [|reflexivity].
  destruct (negb (hasFirstStrike c)); [reflexivity|].
  destruct (Nat.ltb 0 (length (blockedBy attacker))); [|apply hitPlayer_shape].
  apply fold_left_shape. intros. shape_tac.
Qed.

Lemma firstStrikeBlocker_shape ps blocker :
  map pshape (firstStrikeBlocker ps blocker) = map pshape ps.
Proof. unfold firstStrikeBlocker. shape_tac. Qed.

Lemma assignToBlockers_fold_shape card xs acc :
  map pshape (fst (fold_left (assignToBlockers card) xs acc)) = map pshape (fst acc).
Proof.
  revert acc. induction xs as [|x xs IH]; intros [ps rem]; simpl; [reflexivity|].
  rewrite IH. unfold assignToBlockers. simpl. shape_tac.
Qed.

Lemma regularAttacker_shape ps attacker :
  map pshape (regularAttacker ps attacker) = map pshape ps.
Proof.
  unfold regularAttacker.
  destruct (findCard ps (a_instanceId attacker)) as [c|]; [|reflexivity].
  destruct (hasFirstStrike c && negb (hasDoubleStrike c)); [reflexivity|].
  destruct (Nat.ltb 0 (length (blockedBy attacker))); [|apply hitPlayer_shape].
  destruct (fold_left (assignToBlockers c) (blockedBy attacker) (ps, getPower c))
    as [ps1 rem] eqn:E.
  pose proof (assignToBlockers_fold_shape c (blockedBy attacker) (ps, getPower c)) as Hs.
  rewrite E in Hs. simpl in Hs. rewrite <- Hs. shape_tac.
Qed.

Lemma regularBlocker_shape ps blocker :
  map pshape (regularBlocker ps blocker) = map pshape ps.
Proof. unfold regularBlocker. shape_tac. Qed.

Lemma damage_shape (st : GameState) :
  map pshape (players (resolveRegularDamage (resolveFirstStrikeDamage st)))
  = map pshape (players st).
Proof.
  unfold resolveRegularDamage, resolveFirstStrikeDamage. simpl.
  rewrite !fold_left_shape; auto using firstStrikeAttacker_shape,
    firstStrikeBlocker_shape, regularAttacker_shape, regularBlocker_shape.
Qed.

(** *** Per operation *)

Lemma playLand_preserves (now : Z) (st st' : GameState) (pid id : string) :
  zone_invariant (players st) -> playLand now st pid id = Ok st' ->
  zone_invariant (players st').
Proof.
  intros Hinv H. unfold playLand in H.
  destruct (negb (canTakeAction st pid land)); [discriminate|].
  destruct (findPlayer (players st) pid) as [player|] eqn:Hf; [|discriminate].
  destruct (hasPlayedLand player); [discriminate|].
  destruct (findIndexCard (z_hand (zones player)) id) as [i|]; [|discriminate].
  destruct (z_hand (zones player) !! i) as [card|] eqn:Hc; [|discriminate].
  destruct (negb (isLand (class (template card)))); [discriminate|].
  injection H as <-. simpl.
  apply (invariant_Forall2 (players st)); [|exact Hinv].
  apply Forall2_update_first_find; [apply step_ok_refl|].
  intros x Hx. unfold findPlayer in Hf. rewrite Hf in Hx. injection Hx as <-.
  apply (move_from_hand_step player _ i card (set_zone card battlefield) true);
    simpl; rewrite ?removeAt_delete; auto.
Qed.

Lemma castSpell_preserves (now : Z) (st st' : GameState) (pid id : string)
    (targets : option (list string)) :
  zone_invariant (players st) -> castSpell now st pid id targets = Ok st' ->
  zone_invariant (players st').
Proof.
  intros Hinv H. unfold castSpell in H.
  destruct (findPlayer (players st) pid) as [player|] eqn:Hf; [|discriminate].
  destruct (findIndexCard (z_hand (zones player)) id) as [i|]; [|discriminate].
  destruct (z_hand (zones player) !! i) as [card|] eqn:Hc; [|discriminate].
  destruct (negb (canTakeAction st pid _)); [discriminate|].
  destruct (payManaCost (manaPool player) _) as [pool|]; [|discriminate].
  injection H as <-. simpl.
  apply (invariant_Forall2 (players st)); [|exact Hinv].
  apply Forall2_update_first_find; [apply step_ok_refl|].
  intros x Hx. unfold findPlayer in Hf. rewrite Hf in Hx. injection Hx as <-.
  unfold updateZones. simpl.
  destruct (isPermanentClass (class (template card))) eqn:Hperm.
  - apply (move_from_hand_step player _ i card
      (if isCreature (class (template card))
       then set_summoningSickness (set_zone card battlefield) true
       else set_zone card battlefield) true);
      simpl; rewrite ?removeAt_delete; auto;
      destruct (isCreature (class (template card))); reflexivity.
  - apply (move_from_hand_step player _ i card (set_zone card graveyard) false);
      simpl; rewrite ?removeAt_delete; auto.
Qed.

Lemma advancePhase_preserves (now : Z) (st st' : GameState) :
  zone_invariant (players st) -> advancePhase now st = Ok st' ->
  zone_invariant (players st').
Proof.
  intros Hinv H. unfold advancePhase in H. unfold mbind, Result_bind, rbind in H.
  destruct (bool_decide (phase st = end_)).
  - destruct (players st !! _) as [p|]; [|discriminate].
    injection H as <-. simpl.
    apply (invariant_Forall2 (players st)); [|exact Hinv].
    apply Forall2_imap. intros. apply advancePlayer_step.
  - injection H as <-. simpl.
    apply (invariant_Forall2 (players st)); [|exact Hinv].
    apply Forall2_imap. intros. apply advancePlayer_step.
Qed.

Lemma resolveCombatDamage_preserves (now : Z) (st st' : GameState) :
  zone_invariant (players st) -> resolveCombatDamage now st = Ok st' ->
  zone_invariant (players st').
Proof.
  intros Hinv H. unfold resolveCombatDamage in H.
  destruct (negb (bool_decide (phase st = combat_damage))); [discriminate|].
  injection H as <-. simpl.
  apply (invariant_Forall2 (players (resolveRegularDamage (resolveFirstStrikeDamage st)))).
  - apply Forall2_map_self. apply cleanupPlayer_step.
  - apply (invariant_Forall2 (players st)); [|exact Hinv].
    apply shapes_Forall2. apply damage_shape.
Qed.

(** *** createGame *)

Definition fresh_player (pl : Player) : Prop :=
  zones_ok pl /\ exists n, pids pl ≡ₚ map (mkInstanceId (p_id pl)) (seq 0 n).

Lemma imap_ids (pid : string) (f : nat -> CardTemplate -> CardInPlay)
    (d : list CardTemplate) (n : nat) :
  (forall i t, instanceId (f i t) = mkInstanceId pid (n + i)) ->
  map instanceId (imap f d) = map (mkInstanceId pid) (seq n (length d)).
Proof.
  revert f n. induction d as [|t d IH]; intros f n Hf; [reflexivity|].
  simpl. rewrite Hf, Nat.add_0_r. f_equal. apply IH.
  intros i t'. simpl. rewrite Hf. f_equal. lia.
Qed.

Lemma imap_zones (f : nat -> CardTemplate -> CardInPlay) (d : list CardTemplate) :
  (forall i t, zone (f i t) = library) ->
  Forall (fun c => zone c = library) (imap f d).
Proof.
  revert f. induction d as [|t d IH]; intros f Hf; simpl; constructor; auto.
  apply IH. intros. apply Hf.
Qed.

Lemma Forall_drop_keep {A} (P : A -> Prop) (n : nat) (l : list A) :
  Forall P l -> Forall P (drop n l).
Proof.
  revert l. induction n as [|n IH]; intros l Hl; [exact Hl|].
  destruct Hl; simpl; [constructor|]. apply IH. assumption.
Qed.

Lemma mkGamePlayer_fresh (p : PlayerSpec) (index : nat) (d : list CardTemplate) :
  fresh_player (mkGamePlayer p index d).
Proof.
  unfold fresh_player, mkGamePlayer. split.
  - unfold zones_ok. simpl. repeat split; try constructor.
    + apply Forall_drop_keep. apply imap_zones. reflexivity.
    + apply List.Forall_forall. intros y Hy.
      apply in_map_iff in Hy as (c & <- & _). reflexivity.
  - exists (length d). unfold pids, player_cards. simpl.
    rewrite !app_nil_r, !map_app, map_map.
    change (fun x => instanceId (set_zone x hand)) with instanceId.
    rewrite <- (imap_ids (ps_id p) (mkLibraryCard (ps_id p)) d 0) by reflexivity.
    rewrite <- (take_drop 7 (imap (mkLibraryCard (ps_id p)) d)) at 3.
    rewrite map_app. apply Permutation_app_comm.
Qed.

Lemma mkGamePlayers_fresh (rnd : nat -> Q) (index k : nat) (specs : list PlayerSpec) :
  Forall fresh_player (mkGamePlayers rnd index k specs) /\
  map p_id (mkGamePlayers rnd index k specs) = map ps_id specs.
Proof.
  revert index k. induction specs as [|p specs IH]; intros index k; simpl;
    [split; [constructor | reflexivity]|].
  destruct (shuffleArray rnd k (deck p)) as [d k']. simpl.
  destruct (IH (S index) k') as [Hf Hid]. split.
  - constructor; [apply mkGamePlayer_fresh | exact Hf].
  - f_equal. exact Hid.
Qed.

Lemma fresh_ids_in (pl : Player) (x : string) :
  fresh_player pl -> In x (pids pl) -> exists i, x = mkInstanceId (p_id pl) i.
Proof.
  intros [_ [n Hn]] Hx. apply (Permutation_in _ Hn) in Hx.
  apply in_map_iff in Hx as (i & <- & _). eauto.
Qed.

Lemma fresh_NoDup (ps : list Player) :
  Forall fresh_player ps -> NoDup (map p_id ps) -> NoDup (flat_map pids ps).
Proof.
  induction 1 as [|pl ps Hpl Hps IH]; intros Hnd; simpl; [constructor|].
  apply NoDup_cons in Hnd as [Hnotin Hnd].
  apply NoDup_app. split; [|split; [|exact (IH Hnd)]].
  - destruct Hpl as [_ [n Hn]]. rewrite Hn.
    apply NoDup_fmap_2; [|apply NoDup_seq].
    intros i j Hij. apply (mkInstanceId_inj _ _ _ _ Hij).
  - intros x Hx Hx'. apply list_elem_of_In in Hx, Hx'.
    destruct (fresh_ids_in pl x Hpl Hx) as [i ->].
    apply in_flat_map in Hx' as (q & Hq & Hxq).
    assert (Hfq : fresh_player q) by (rewrite List.Forall_forall in Hps; auto).
    destruct (fresh_ids_in q _ Hfq Hxq) as [j Hij].
    apply mkInstanceId_inj in Hij as [Hpq _].
    apply Hnotin. rewrite Hpq. apply list_elem_of_In, in_map. exact Hq.
Qed.

Lemma createGame_establishes (rnd : nat -> Q) (clk : Clock) (specs : list PlayerSpec)
    (st : GameState) :
  NoDup (map ps_id specs) -> createGame rnd clk specs = Ok st ->
  zone_invariant (players st).
Proof.
  intros Hnd H. unfold createGame in H.
  destruct (_ || _)%bool; [discriminate|].
  destruct (mkGamePlayers rnd 0 0 specs) as [|p0 rest] eqn:E; [discriminate|].
  injection H as <-. simpl. rewrite <- E.
  destruct (mkGamePlayers_fresh rnd 0 0 specs) as [Hf Hid]. split.
  - eapply Forall_impl; [exact Hf|]. intros pl [Hz _]. exact Hz.
  - rewrite all_ids_flat. apply fresh_NoDup; [exact Hf|]. rewrite Hid. exact Hnd.
Qed.

End ZoneLemmas.

Module Claims.
Import Fixtures Fixtures2 HeapFixtures ClockLemmas ZoneLemmas.

(** ** C1.  [declareAttackers] and [playLand] write into the snapshot they
    receive.  Claim C1 (every top-level transition leaves its input
    snapshot unchanged) fails: on a two-player store, a successful
    [declareAttackers] leaves p1's creature tapped in the OLD snapshot too,
    and a successful [playLand] removes the land from the OLD snapshot's
    hand. *)
Theorem transitions_write_input_snapshot :
  let s_atk := snapshot combat_declare_attackers in
  let s_main := snapshot main1 in
  (let '(h1, r) := Heap.declareAttackers 5 s_atk ["p1-c0"] ["p2"] h0 in
   isOk r = true /\
   p1Battlefield (Heap.read_state h0 s_atk) = Some [false] /\
   p1Battlefield (Heap.read_state h1 s_atk) = Some [true]) /\
  (let '(h1, r) := Heap.playLand 5 s_main "p1" "p1-c1" h0 in
   isOk r = true /\
   p1Hand (Heap.read_state h0 s_main) = Some ["p1-c1"] /\
   p1Hand (Heap.read_state h1 s_main) = Some []).
Proof. vm_compute. repeat split. Qed.

(** ** C2.  A failing [declareAttackers] keeps its partial writes.  Claim C2
    (a transition that throws leaves its input exactly as before) fails:
    declaring [p1-c0] (valid) then [ghost] (absent) throws
    "Creature not found on battlefield", yet [p1-c0] stays tapped in the
    snapshot the caller passed in. *)
Theorem declareAttackers_partial_on_error :
  let s_atk := snapshot combat_declare_attackers in
  let '(h1, r) :=
    Heap.declareAttackers 5 s_atk ["p1-c0"; "ghost"] ["p2"; "p2"] h0 in
  r = Err "Creature not found on battlefield" /\
  p1Battlefield (Heap.read_state h0 s_atk) = Some [false] /\
  p1Battlefield (Heap.read_state h1 s_atk) = Some [true].
Proof. vm_compute. repeat split. Qed.

(** ** C3.  [parseManaString] on a multi-digit run followed by a symbol.
    Claim C3 says "12R" denotes generic 12 and one red pip.  The
    look-ahead reads [nextChar] once, so the loop absorbs the rest of the
    string into [numStr] and [parseInt] drops it: "12R" parses with no red
    pip.  The round trip fails too: "R12" parses to (R = 1, generic 12),
    which formats as "12R" and re-parses to generic 12 only. *)
Theorem parseManaString_drops_after_multidigit :
  parseManaString "12R" = mkManaCost 0 0 0 0 0 0 12 /\
  parseManaString "R12" = mkManaCost 0 0 0 1 0 0 12 /\
  formatManaCost (parseManaString "R12") = "12R" /\
  parseManaString (formatManaCost (parseManaString "R12")) = mkManaCost 0 0 0 0 0 0 12.
Proof. vm_compute. repeat split. Qed.

(** ** C5.  [getPower] ignores counters when the base power is 0.  Claim C5
    says counters still apply on a present base power of 0: a 0/1 with one
    +1/+1 counter should have power 0 + 1 - 0 = 1; [!card.template.power]
    treats 0 as absent and returns 0.  [getToughness] has the same guard:
    a 1/0 with one +1/+1 counter gets toughness 0, not 1. *)
Theorem getPower_zero_base_ignores_counters :
  power (template zeroPowerPlusOne) = Some 0 /\
  plusOnePlusOne (counters zeroPowerPlusOne) = 1 /\
  minusOneMinusOne (counters zeroPowerPlusOne) = 0 /\
  getPower zeroPowerPlusOne = 0 /\
  toughness (template zeroToughnessPlusOne) = Some 0 /\
  plusOnePlusOne (counters zeroToughnessPlusOne) = 1 /\
  minusOneMinusOne (counters zeroToughnessPlusOne) = 0 /\
  getToughness zeroToughnessPlusOne = 0.
Proof. vm_compute. repeat split. Qed.

(** ** C6.  Lifelink in the two damage passes.  Claim C6 says a Lifelink
    creature's controller gains exactly the damage it dealt in that pass.
    A 5/5 Lifelink attacker blocked by a 1/2 deals 2 in the regular pass,
    yet p1 gains 5.  With First Strike added, it deals 5 to the blocker in
    the first-strike pass, yet p1 gains nothing there (the blocked branch
    of that pass has no Lifelink code). *)
Theorem lifelink_gain_differs_from_damage :
  lifeOf (Ok (resolveRegularDamage (blockedCombat ["LIFELINK"]))) "p1" = Some 25 /\
  damageOf (Ok (resolveRegularDamage (blockedCombat ["LIFELINK"]))) "p2-c0" = Some 2 /\
  lifeOf (Ok (resolveFirstStrikeDamage (blockedCombat ["LIFELINK"; "FIRST_STRIKE"]))) "p1"
    = Some 20 /\
  damageOf (Ok (resolveFirstStrikeDamage (blockedCombat ["LIFELINK"; "FIRST_STRIKE"])))
    "p2-c0" = Some 5 /\
  lifeOf (resolveCombatDamage 9 (blockedCombat ["LIFELINK"])) "p1" = Some 25.
Proof. vm_compute. repeat split. Qed.

(** ** C4.  Randomness and the clock.  Claim C4 says two runs of
    [createGame] on identical players produce identical states, randomness
    entering only through an injectable source.  [shuffleArray] calls
    [Math.random()] directly: with the draws 0, 0, ... every two-card deck
    is swapped, with 1/2, 1/2, ... it is kept, so the two runs deal
    different opening hands on the same players and clock. *)
Lemma createGame_depends_on_Math_random :
  handNames (createGame (fun _ => 0%Q) (mkClock 1 1 1) specs)
    = [["Beta"; "Alpha"]; ["Beta"; "Alpha"]] /\
  handNames (createGame (fun _ => (1 # 2)%Q) (mkClock 1 1 1) specs)
    = [["Alpha"; "Beta"]; ["Alpha"; "Beta"]] /\
  createGame (fun _ => 0%Q) (mkClock 1 1 1) specs
    <> createGame (fun _ => (1 # 2)%Q) (mkClock 1 1 1) specs.
Proof.
  split; [vm_compute; reflexivity|]. split; [vm_compute; reflexivity|].
  intro H. apply (f_equal handNames) in H. vm_compute in H. discriminate H.
Qed.

(** C4 (amended).  [createGame] is determined by the players together with
    the values [Math.random()] returns; the clock only enters the game id
    and the two timestamps.  [processAction], [advancePhase] and
    [resolveCombatDamage] are determined by the state and the input; the
    clock only enters [updatedAt]. *)
Theorem engine_determined_by_inputs_and_environment :
  (forall rnd clk1 clk2 ps,
     rmap eraseClock (createGame rnd clk1 ps) = rmap eraseClock (createGame rnd clk2 ps)) /\
  (forall now1 now2 st pid a,
     rmap eraseUpdated (processAction now1 st pid a)
     = rmap eraseUpdated (processAction now2 st pid a)) /\
  (forall now1 now2 st,
     rmap eraseUpdated (advancePhase now1 st) = rmap eraseUpdated (advancePhase now2 st)) /\
  (forall now1 now2 st,
     rmap eraseUpdated (resolveCombatDamage now1 st)
     = rmap eraseUpdated (resolveCombatDamage now2 st)).
Proof.
  split; [|split; [|split]].
  - intros. unfold createGame. repeat case_match; reflexivity.
  - intros. apply processAction_clock.
  - apply advancePhase_clock.
  - apply resolveCombatDamage_clock.
Qed.

(** ** C7.  Entering the end phase.  Claim C7 says only the active
    player's mana pool is emptied.  From [main2], with p1 active, p2's pool
    (1 white, 2 red) is emptied as well. *)
Lemma advancePhase_end_empties_non_active_pool :
  manaPool <$> (players main2State !! 1%nat) = Some pooled /\
  pooled <> createEmptyManaPool /\
  rmap (fun s => (activePlayerId s, phase s, manaPool <$> (players s !! 1%nat)))
       (advancePhase 0 main2State)
    = Ok ("p1", end_, Some createEmptyManaPool).
Proof. vm_compute. repeat split. discriminate. Qed.

(** C7 (amended).  When [advancePhase] enters the end phase, every
    player's mana pool is emptied, and no player is added or removed. *)
Theorem advancePhase_end_empties_all_pools (now : Z) (st st' : GameState)
    (Hnext : getNextPhase (phase st) = end_)
    (Hok : advancePhase now st = Ok st') :
  length (players st') = length (players st) /\
  Forall (fun p => manaPool p = createEmptyManaPool) (players st').
Proof.
  destruct (phase st) eqn:E; vm_compute in Hnext; try discriminate Hnext.
  unfold advancePhase in Hok. rewrite E in Hok. simpl in Hok.
  injection Hok as <-. simpl. split.
  - apply length_imap.
  - apply Forall_lookup. intros i p Hi.
    rewrite list_lookup_imap in Hi.
    destruct (players st !! i) as [p0|]; simpl in Hi; [|discriminate].
    injection Hi as <-. reflexivity.
Qed.

Lemma advancePhase_end_empties_all_pools_witness :
  exists st', advancePhase 0 main2State = Ok st' /\
  length (players st') = length (players main2State) /\
  Forall (fun p => manaPool p = createEmptyManaPool) (players st').
Proof.
  eexists. split; [reflexivity|].
  apply (advancePhase_end_empties_all_pools 0 main2State); reflexivity.
Defined.

(** ** C8.  Leaving the end phase.  From phase [end_] at turn N with at
    least one player, [advancePhase] succeeds and yields phase [untap], turn
    N + 1, active index (i + 1) mod n, the player at that index active and
    holding priority, and that player's battlefield untapped and free of
    summoning sickness, with the played-a-land flag reset. *)
Theorem advancePhase_from_end (now : Z) (st : GameState)
    (Hend : phase st = end_) (Hne : players st <> []) :
  let i := Nat.modulo (currentPlayerIndex st + 1) (length (players st)) in
  exists st' p p',
    advancePhase now st = Ok st' /\
    players st !! i = Some p /\
    phase st' = untap /\
    turn st' = turn st + 1 /\
    currentPlayerIndex st' = i /\
    activePlayerId st' = p_id p /\
    priorityPlayerId st' = p_id p /\
    players st' !! i = Some p' /\
    p_id p' = p_id p /\
    z_battlefield (zones p') = map untapCard (z_battlefield (zones p)) /\
    Forall (fun c => isTapped c = false /\ summoningSickness c = false)
      (z_battlefield (zones p')) /\
    hasPlayedLand p' = false.
Proof.
  intros i.
  assert (Hi : (i < length (players st))%nat).
  { apply Nat.mod_upper_bound. destruct (players st); simpl; [congruence | lia]. }
  destruct (lookup_lt_is_Some_2 _ _ Hi) as [p Hp].
  unfold advancePhase. rewrite Hend. simpl. fold i. rewrite Hp. simpl.
  eexists _, p, _. split; [reflexivity|]. split; [reflexivity|].
  change (getNextPhase end_) with untap. cbn [players phase turn currentPlayerIndex
    activePlayerId priorityPlayerId].
  rewrite list_lookup_imap, Hp. simpl.
  do 6 (split; [reflexivity|]).
  unfold advancePlayer. rewrite Nat.eqb_refl. simpl.
  repeat split; try reflexivity.
  apply Forall_forall. intros c Hc. apply list_elem_of_In, in_map_iff in Hc.
  destruct Hc as [c0 [<- _]]. split; reflexivity.
Qed.

Lemma advancePhase_from_end_witness :
  exists st' p p',
    advancePhase 0 endState = Ok st' /\
    players endState !! 1%nat = Some p /\
    phase st' = untap /\ turn st' = 5 /\ currentPlayerIndex st' = 1%nat /\
    activePlayerId st' = p_id p /\ priorityPlayerId st' = p_id p /\
    players st' !! 1%nat = Some p' /\ p_id p' = p_id p /\
    z_battlefield (zones p') = map untapCard (z_battlefield (zones p)) /\
    Forall (fun c => isTapped c = false /\ summoningSickness c = false)
      (z_battlefield (zones p')) /\
    hasPlayedLand p' = false.
Proof.
  refine (advancePhase_from_end 0 endState eq_refl _).
  discriminate.
Defined.

(** ** C9.  [checkGameEnd].  One living player: that player wins and the
    game is completed.  No living player: completed with no winner.  Two
    or more living players: the state is returned as it is, so a second
    call returns it again. *)
Theorem checkGameEnd_cases (now : Z) (st : GameState) :
  (forall w, filter isAlive (players st) = [w] ->
     status (checkGameEnd now st) = completed /\
     winner (checkGameEnd now st) = Some (p_id w)) /\
  (filter isAlive (players st) = [] ->
     status (checkGameEnd now st) = completed /\
     winner (checkGameEnd now st) = None) /\
  ((2 <= length (filter isAlive (players st)))%nat ->
     checkGameEnd now st = st /\
     checkGameEnd now (checkGameEnd now st) = checkGameEnd now st).
Proof.
  unfold checkGameEnd. split; [|split].
  - intros w ->. split; reflexivity.
  - intros ->. split; reflexivity.
  - intros H. destruct (filter isAlive (players st)) as [|a [|b l]] eqn:E;
      simpl in H; try lia.
    split; [reflexivity|]. rewrite E. reflexivity.
Qed.

Lemma checkGameEnd_cases_witness :
  (status (checkGameEnd 0 (lifeState [0; 15; 0])) = completed /\
   winner (checkGameEnd 0 (lifeState [0; 15; 0])) = Some "p2") /\
  (status (checkGameEnd 0 (lifeState [0; 0])) = completed /\
   winner (checkGameEnd 0 (lifeState [0; 0])) = None) /\
  checkGameEnd 0 (lifeState [3; 15; 0]) = lifeState [3; 15; 0].
Proof.
  split; [|split].
  - pose proof (proj1 (checkGameEnd_cases 0 (lifeState [0; 15; 0]))) as H.
    apply (H (plr "p2" 15 createEmptyManaPool [] [] [])). reflexivity.
  - apply (proj1 (proj2 (checkGameEnd_cases 0 (lifeState [0; 0])))). reflexivity.
  - apply (proj2 (proj2 (checkGameEnd_cases 0 (lifeState [3; 15; 0])))). simpl. lia.
Defined.

(** ** C10.  Zone consistency.  Call a list of players zone-consistent when
    every card of each of a player's five collections (library, hand,
    battlefield, graveyard, exile) has that collection's name in its [zone]
    field, and no instance identifier occurs twice among all collections of
    all players.  [createGame] with distinct player ids yields
    zone-consistent players, and [playLand], [castSpell], [advancePhase]
    (with its untap and draw effects) and [resolveCombatDamage] (with its
    cleanup of dead creatures) keep the players zone-consistent whenever
    they succeed. *)
Theorem zone_invariant_preserved :
  (forall rnd clk specs st,
     NoDup (map ps_id specs) -> createGame rnd clk specs = Ok st ->
     zone_invariant (players st)) /\
  (forall now st pid id st',
     zone_invariant (players st) -> playLand now st pid id = Ok st' ->
     zone_invariant (players st')) /\
  (forall now st pid id targets st',
     zone_invariant (players st) -> castSpell now st pid id targets = Ok st' ->
     zone_invariant (players st')) /\
  (forall now st st',
     zone_invariant (players st) -> advancePhase now st = Ok st' ->
     zone_invariant (players st')) /\
  (forall now st st',
     zone_invariant (players st) -> resolveCombatDamage now st = Ok st' ->
     zone_invariant (players st')).
Proof.
  split; [|split; [|split; [|split]]].
  - intros rnd clk specs0 st Hnd H. exact (createGame_establishes rnd clk specs0 st Hnd H).
  - intros now st pid id st'. apply playLand_preserves.
  - intros now st pid id targets st'. apply castSpell_preserves.
  - intros now st st'. apply advancePhase_preserves.
  - intros now st st'. apply resolveCombatDamage_preserves.
Qed.

Lemma zone_invariant_preserved_witness :
  zone_invariant (players game5) /\ zone_invariant (players game10).
Proof.
  destruct zone_invariant_preserved as (Hc & Hp & Hcs & Ha & Hr).
  assert (I0 : zone_invariant (players game0)).
  { apply (Hc zeroRandom clock0 specs).
    - vm_compute. constructor; [|constructor; [|constructor]]; set_solver.
    - vm_compute. reflexivity. }
  assert (I1 : zone_invariant (players game1))
    by (apply (Ha 0 game0); [exact I0 | vm_compute; reflexivity]).
  assert (I2 : zone_invariant (players game2))
    by (apply (Ha 0 game1); [exact I1 | vm_compute; reflexivity]).
  assert (I3 : zone_invariant (players game3))
    by (apply (Ha 0 game2); [exact I2 | vm_compute; reflexivity]).
  assert (I4 : zone_invariant (players game4))
    by (apply (Hp 0 game3 "p1" "p1-card-0"); [exact I3 | vm_compute; reflexivity]).
  assert (I5 : zone_invariant (players game5))
    by (apply (Hcs 0 game4 "p1" "p1-card-1" None); [exact I4 | vm_compute; reflexivity]).
  assert (I6 : zone_invariant (players game6))
    by (apply (Ha 0 game5); [exact I5 | vm_compute; reflexivity]).
  assert (I7 : zone_invariant (players game7))
    by (apply (Ha 0 game6); [exact I6 | vm_compute; reflexivity]).
  assert (I8 : zone_invariant (players game8))
    by (apply (Ha 0 game7); [exact I7 | vm_compute; reflexivity]).
  assert (I9 : zone_invariant (players game9))
    by (apply (Ha 0 game8); [exact I8 | vm_compute; reflexivity]).
  split; [exact I5|].
  apply (Hr 0 game9); [exact I9 | vm_compute; reflexivity].
Defined.

(** C10 (counterexample).  [createGame] does not check that the player ids
    are distinct, and it builds the instance ids ["<id>-card-<i>"] from the
    player id.  Two players both named ["p1"] are accepted, and both get the
    cards ["p1-card-0"] and ["p1-card-1"]: the zone-consistency invariant
    fails right after [createGame]. *)
Lemma createGame_duplicate_ids_breaks_invariant :
  exists st, createGame zeroRandom clock0 dupSpecs = Ok st /\
    map instanceId (all_cards (players st)) =
      ["p1-card-0"; "p1-card-1"; "p1-card-0"; "p1-card-1"] /\
    ~ zone_invariant (players st).
Proof.
  exists (unwrapState (createGame zeroRandom clock0 dupSpecs)).
  split; [vm_compute; reflexivity|].
  assert (E : map instanceId (all_cards (players (unwrapState
                (createGame zeroRandom clock0 dupSpecs)))) =
              ["p1-card-0"; "p1-card-1"; "p1-card-0"; "p1-card-1"])
    by (vm_compute; reflexivity).
  split; [exact E|]. intros [_ Hnd]. rewrite E in Hnd.
  apply NoDup_cons in Hnd as [Hx _]. apply Hx. set_solver.
Qed.

End Claims.

(* ------------------------------------------------------------------ *)
(** * Further properties of the engine *)
Module Extras.
Import Fixtures Fixtures2 HeapFixtures ZoneLemmas ExtraDefs.

(** ** Setup: [shuffleArray] and [createGame] *)

Lemma fisherYates_perm {A} (rnd : nat -> Q) (i k : nat) (l : list A) :
  fst (fisherYates rnd i k l) ≡ₚ l.
Proof.
  revert k l. induction i as [|i IH]; intros k l; simpl; [reflexivity|].
  rewrite IH. unfold lookupZ.
  destruct (l !! S i) as [t|] eqn:Ht; [|reflexivity].
  destruct (_ <? 0); [reflexivity|].
  destruct (l !! Z.to_nat _) as [sv|] eqn:Hsv; [|reflexivity].
  apply Permutation_insert_swap; assumption.
Qed.

Lemma shuffleArray_perm {A} (rnd : nat -> Q) (k : nat) (array : list A) :
  fst (shuffleArray rnd k array) ≡ₚ array.
Proof. apply fisherYates_perm. Qed.

(** [shuffleArray] returns a permutation of its input, whatever values
    [Math.random()] returns. *)
Theorem shuffleArray_permutation {A} (rnd : nat -> Q) (k : nat) (array : list A) :
  fst (shuffleArray rnd k array) ≡ₚ array.
Proof. exact (shuffleArray_perm rnd k array). Qed.

Lemma imap_templates (f : nat -> CardTemplate -> CardInPlay) (d : list CardTemplate) :
  (forall i t, template (f i t) = t) -> map template (imap f d) = d.
Proof.
  revert f. induction d as [|t d IH]; intros f Hf; simpl; [reflexivity|].
  rewrite Hf. f_equal. apply IH. intros. apply Hf.
Qed.

Lemma imap_Forall {A B} (P : B -> Prop) (f : nat -> A -> B) (d : list A) :
  (forall i t, P (f i t)) -> Forall P (imap f d).
Proof.
  revert f. induction d as [|t d IH]; intros f Hf; simpl; constructor; auto.
  apply IH. intros. apply Hf.
Qed.

Lemma mkGamePlayer_setup (spec : PlayerSpec) (index : nat) (d : list CardTemplate) :
  d ≡ₚ deck spec -> fresh_setup spec (mkGamePlayer spec index d).
Proof.
  intros Hd. unfold fresh_setup, mkGamePlayer. simpl.
  set (L := imap (mkLibraryCard (ps_id spec)) d).
  assert (HL : map template L = d) by (apply imap_templates; reflexivity).
  assert (HF : Forall (fun c => isTapped c = false /\ damageMarked c = 0 /\
                   summoningSickness c = false /\ ownerId c = ps_id spec) L)
    by (apply imap_Forall; intros; repeat split).
  repeat split; try reflexivity.
  - rewrite map_app, map_map.
    change (fun x => template (set_zone x hand)) with template.
    rewrite <- Hd, <- HL. rewrite <- (take_drop 7 L) at 3.
    rewrite map_app. apply Permutation_app_comm.
  - rewrite length_map, length_take, <- (Permutation_length Hd), <- HL, length_map.
    reflexivity.
  - apply Forall_app. split; [apply Forall_drop; exact HF|].
    apply List.Forall_map. apply Forall_take. exact HF.
Qed.

Lemma mkGamePlayers_setup (rnd : nat -> Q) (index k : nat) (specs0 : list PlayerSpec) :
  Forall2 fresh_setup specs0 (mkGamePlayers rnd index k specs0).
Proof.
  revert index k. induction specs0 as [|p specs0 IH]; intros index k; simpl;
    [constructor|].
  pose proof (shuffleArray_perm rnd k (deck p)) as Hs.
  destruct (shuffleArray rnd k (deck p)) as [d k']. simpl in Hs.
  constructor; [apply mkGamePlayer_setup; exact Hs | apply IH].
Qed.

Lemma mkGamePlayers_priority (rnd : nat -> Q) (index k : nat) (specs0 : list PlayerSpec)
    (i : nat) (p : Player) :
  mkGamePlayers rnd index k specs0 !! i = Some p -> hasPriority p = Nat.eqb (index + i) 0.
Proof.
  revert index k i. induction specs0 as [|s specs0 IH]; intros index k i H; simpl in H;
    [discriminate|].
  destruct (shuffleArray rnd k (deck s)) as [d k'].
  destruct i as [|i]; simpl in H.
  - injection H as <-. rewrite Nat.add_0_r. reflexivity.
  - rewrite (IH _ _ _ H). f_equal. lia.
Qed.

(** [createGame] on success: one player per entry, in order; each with the
    entry's id and name, 20 life, an empty mana pool, its whole deck split
    between library and hand (a permutation of the deck), a hand of
    min(7, deck size) cards, untapped, undamaged, owned by the player, and
    empty battlefield, graveyard and exile; only the first player holds
    priority, and the first player is active and has priority at turn 1,
    phase untap. *)
Theorem createGame_setup (rnd : nat -> Q) (clk : Clock) (specs0 : list PlayerSpec)
    (st : GameState) :
  createGame rnd clk specs0 = Ok st ->
  Forall2 fresh_setup specs0 (players st) /\
  (forall i p, players st !! i = Some p -> hasPriority p = Nat.eqb i 0) /\
  (exists p0, players st !! 0%nat = Some p0 /\
     activePlayerId st = p_id p0 /\ priorityPlayerId st = p_id p0) /\
  currentPlayerIndex st = 0%nat /\ phase st = untap /\ turn st = 1 /\
  stack st = [] /\ status st = in_progress /\ winner st = None.
Proof.
  intros H. unfold createGame in H.
  destruct (_ || _)%bool; [discriminate|].
  destruct (mkGamePlayers rnd 0 0 specs0) as [|p0 rest] eqn:E; [discriminate|].
  injection H as <-. simpl. rewrite <- E. repeat split.
  - apply mkGamePlayers_setup.
  - intros i p Hp. exact (mkGamePlayers_priority rnd 0 0 specs0 i p Hp).
  - exists p0. rewrite ?E. repeat split.
Qed.

Lemma createGame_setup_witness :
  exists st, createGame zeroRandom clock0 specs = Ok st /\
  Forall2 fresh_setup specs (players st) /\
  (forall i p, players st !! i = Some p -> hasPriority p = Nat.eqb i 0) /\
  (exists p0, players st !! 0%nat = Some p0 /\
     activePlayerId st = p_id p0 /\ priorityPlayerId st = p_id p0) /\
  currentPlayerIndex st = 0%nat /\ phase st = untap /\ turn st = 1 /\
  stack st = [] /\ status st = in_progress /\ winner st = None.
Proof.
  exists game0. split; [vm_compute; reflexivity|].
  apply (createGame_setup zeroRandom clock0 specs). vm_compute. reflexivity.
Defined.

(** [createGame] throws exactly when the number of players is not 2, 3 or 4. *)
Theorem createGame_error_iff (rnd : nat -> Q) (clk : Clock) (specs0 : list PlayerSpec) :
  (exists e, createGame rnd clk specs0 = Err e) <->
  (length specs0 < 2 \/ 4 < length specs0)%nat.
Proof.
  unfold createGame. split.
  - intros [e H]. destruct ((length specs0 <? 2)%nat || (4 <? length specs0)%nat)%bool eqn:Hb.
    + apply orb_true_iff in Hb as [Hb|Hb]; apply Nat.ltb_lt in Hb; lia.
    + destruct specs0 as [|s specs0]; simpl in Hb; [discriminate|].
      simpl in H. destruct (shuffleArray rnd 0 (deck s)). discriminate.
  - intros Hl. exists "Game must have 2-4 players".
    destruct Hl as [Hl|Hl]; apply Nat.ltb_lt in Hl; rewrite Hl;
      [reflexivity | rewrite orb_true_r; reflexivity].
Qed.

(** ** Mana payment *)

Ltac canpay_facts H :=
  unfold canPayCost in H;
  repeat match type of H with
  | context [if ?b then _ else _] =>
      let E := fresh "E" in destruct b eqn:E; [try discriminate|]
  end;
  repeat match goal with
  | E : (_ >? _) = false |- _ => rewrite Z.gtb_ltb in E; apply Z.ltb_ge in E
  | E : (_ >=? _) = true |- _ => apply Z.geb_le in E
  end.

(** [payManaCost] on non-negative amounts: when it succeeds, the new pool
    is non-negative, no color grows, and exactly [calculateCMC cost] mana
    has been removed. *)
Theorem payManaCost_accounting (pool : ManaPool) (cost : ManaCost) (pool' : ManaPool) :
  pool_nonneg pool -> cost_nonneg cost -> payManaCost pool cost = Some pool' ->
  pool_nonneg pool' /\
  W pool' <= W pool /\ U pool' <= U pool /\ B pool' <= B pool /\
  R pool' <= R pool /\ G pool' <= G pool /\ C pool' <= C pool /\
  getTotalMana pool' = getTotalMana pool - calculateCMC cost.
Proof.
  intros Hp Hc H. unfold payManaCost in H.
  destruct (canPayCost pool cost) eqn:Hcan; [|discriminate]. simpl in H.
  injection H as <-. canpay_facts Hcan.
  destruct pool as [w u b r g c]. destruct cost as [cw cu cb cr cg cc gen].
  unfold pool_nonneg, cost_nonneg, getTotalMana, calculateCMC in *. simpl in *.
  repeat match goal with
  | |- context [if ?x <=? 0 then _ else _] =>
      let E := fresh "L" in destruct (x <=? 0) eqn:E;
      [apply Z.leb_le in E | apply Z.leb_gt in E]
  end; simpl; lia.
Qed.

Lemma payManaCost_accounting_witness :
  pool_nonneg (mkManaPool 1 0 0 2 0 1) /\ cost_nonneg (mkManaCost 0 0 0 1 0 0 2) /\
  payManaCost (mkManaPool 1 0 0 2 0 1) (mkManaCost 0 0 0 1 0 0 2)
    = Some (mkManaPool 0 0 0 1 0 0) /\
  getTotalMana (mkManaPool 0 0 0 1 0 0)
    = getTotalMana (mkManaPool 1 0 0 2 0 1) - calculateCMC (mkManaCost 0 0 0 1 0 0 2).
Proof.
  assert (Hp : pool_nonneg (mkManaPool 1 0 0 2 0 1)) by (unfold pool_nonneg; simpl; lia).
  assert (Hc : cost_nonneg (mkManaCost 0 0 0 1 0 0 2)) by (unfold cost_nonneg; simpl; lia).
  assert (E : payManaCost (mkManaPool 1 0 0 2 0 1) (mkManaCost 0 0 0 1 0 0 2)
              = Some (mkManaPool 0 0 0 1 0 0)) by reflexivity.
  split; [exact Hp|]. split; [exact Hc|]. split; [exact E|].
  exact (proj2 (proj2 (proj2 (proj2 (proj2 (proj2 (proj2
    (payManaCost_accounting _ _ _ Hp Hc E)))))))).
Defined.

(** [payManaCost] takes generic mana in the order C, W, U, B, R, G: a color
    gives up more than its own colored cost only once every color before it
    in that order is at 0. *)
Theorem payManaCost_generic_order (pool : ManaPool) (cost : ManaCost) (pool' : ManaPool) :
  pool_nonneg pool -> cost_nonneg cost -> payManaCost pool cost = Some pool' ->
  (W pool' < W pool - cW cost -> C pool' = 0) /\
  (U pool' < U pool - cU cost -> C pool' = 0 /\ W pool' = 0) /\
  (B pool' < B pool - cB cost -> C pool' = 0 /\ W pool' = 0 /\ U pool' = 0) /\
  (R pool' < R pool - cR cost ->
     C pool' = 0 /\ W pool' = 0 /\ U pool' = 0 /\ B pool' = 0) /\
  (G pool' < G pool - cG cost ->
     C pool' = 0 /\ W pool' = 0 /\ U pool' = 0 /\ B pool' = 0 /\ R pool' = 0).
Proof.
  intros Hp Hc H. unfold payManaCost in H.
  destruct (canPayCost pool cost) eqn:Hcan; [|discriminate]. simpl in H.
  injection H as <-. canpay_facts Hcan.
  destruct pool as [w u b r g c]. destruct cost as [cw cu cb cr cg cc gen].
  unfold pool_nonneg, cost_nonneg in *. simpl in *.
  repeat match goal with
  | |- context [if ?x <=? 0 then _ else _] =>
      let E := fresh "L" in destruct (x <=? 0) eqn:E;
      [apply Z.leb_le in E | apply Z.leb_gt in E]
  end; simpl; lia.
Qed.

Lemma payManaCost_generic_order_witness :
  payManaCost (mkManaPool 1 1 0 0 0 1) (mkManaCost 0 0 0 0 0 0 3)
    = Some (mkManaPool 0 0 0 0 0 0) /\
  (U (mkManaPool 0 0 0 0 0 0) < U (mkManaPool 1 1 0 0 0 1) - 0 ->
     C (mkManaPool 0 0 0 0 0 0) = 0 /\ W (mkManaPool 0 0 0 0 0 0) = 0).
Proof.
  assert (E : payManaCost (mkManaPool 1 1 0 0 0 1) (mkManaCost 0 0 0 0 0 0 3)
              = Some (mkManaPool 0 0 0 0 0 0)) by reflexivity.
  assert (Hp : pool_nonneg (mkManaPool 1 1 0 0 0 1)) by (unfold pool_nonneg; simpl; lia).
  assert (Hc : cost_nonneg (mkManaCost 0 0 0 0 0 0 3)) by (unfold cost_nonneg; simpl; lia).
  split; [exact E|].
  exact (proj1 (proj2 (payManaCost_generic_order _ _ _ Hp Hc E))).
Defined.


(** ** Phases *)

Lemma advancePhase_step (now : Z) (st : GameState) :
  (phase st = end_ -> players st <> []) ->
  exists st', advancePhase now st = Ok st' /\
    phase st' = getNextPhase (phase st) /\
    turn st' = (if bool_decide (phase st = end_) then turn st + 1 else turn st) /\
    length (players st') = length (players st) /\
    currentPlayerIndex st' =
      (if bool_decide (phase st = end_)
       then Nat.modulo (currentPlayerIndex st + 1) (length (players st))
       else currentPlayerIndex st).
Proof.
  intros Hne. unfold advancePhase. unfold mbind, Result_bind, rbind.
  case_bool_decide as Hend.
  - destruct (players st !! _) as [p|] eqn:Hl.
    + eexists. split; [reflexivity|]. simpl. rewrite length_imap.
      repeat split; reflexivity.
    + exfalso. apply lookup_ge_None in Hl.
      destruct (players st) as [|p ps] eqn:Hps; [exact (Hne Hend eq_refl)|].
      assert (Hlt : (Nat.modulo (currentPlayerIndex st + 1) (length (p :: ps))
                     < length (p :: ps))%nat) by (apply Nat.mod_upper_bound; simpl; lia).
      lia.
  - eexists. split; [reflexivity|]. simpl. rewrite length_imap.
    repeat split; reflexivity.
Qed.

(** [advancePhase] throws exactly when it leaves the end phase of a game
    with no players (the new active index is [NaN]). *)
Theorem advancePhase_error_iff (now : Z) (st : GameState) :
  (exists e, advancePhase now st = Err e) <-> phase st = end_ /\ players st = [].
Proof.
  split.
  - intros [e He].
    destruct (decide (phase st = end_ -> players st <> [])) as [Hok|Hko].
    + destruct (advancePhase_step now st Hok) as (st' & E & _). congruence.
    + destruct (decide (phase st = end_)) as [Hend|Hend]; [|tauto].
      split; [exact Hend|].
      destruct (players st); [reflexivity|]. exfalso. apply Hko. discriminate.
  - intros [Hend Hps]. eexists. unfold advancePhase, mbind, Result_bind, rbind.
    rewrite Hps. rewrite bool_decide_eq_true_2 by exact Hend. reflexivity.
Qed.

Lemma advanceTimes_spec (n : nat) (now : Z) (st : GameState) :
  players st <> [] ->
  exists st', advanceTimes n now st = Ok st' /\
    phase st' = Nat.iter n getNextPhase (phase st) /\
    turn st' = turn st + Z.of_nat (countEnds n (phase st)) /\
    length (players st') = length (players st) /\
    currentPlayerIndex st' =
      Nat.iter (countEnds n (phase st))
        (fun i => Nat.modulo (i + 1) (length (players st))) (currentPlayerIndex st).
Proof.
  revert st. induction n as [|n IH]; intros st Hne.
  - exists st. simpl. repeat split; try reflexivity. lia.
  - destruct (advancePhase_step now st (fun _ => Hne)) as (s1 & E1 & P1 & T1 & L1 & I1).
    assert (Hne1 : players s1 <> []).
    { intros Hs. apply Hne. apply length_zero_iff_nil. rewrite <- L1, Hs. reflexivity. }
    destruct (IH s1 Hne1) as (s2 & E2 & P2 & T2 & L2 & I2).
    exists s2.
    change (advanceTimes (S n) now st) with (rbind (advancePhase now st) (advanceTimes n now)).
    rewrite E1. cbn [rbind]. split; [exact E2|].
    split; [rewrite P2, P1, Nat.iter_succ_r; reflexivity|].
    split; [rewrite T2, P1, T1; cbn [countEnds]; case_bool_decide; lia|].
    split; [rewrite L2, L1; reflexivity|].
    rewrite I2, L1, I1, P1. cbn [countEnds].
    case_bool_decide; cbn [Nat.add]; [rewrite Nat.iter_succ_r|]; reflexivity.
Qed.

(** Eleven phase steps make a full turn: from any phase of a game with at
    least one player, eleven [advancePhase] calls succeed, come back to the
    same phase, increase the turn by exactly one and pass the turn to the
    next player in order. *)
Theorem advancePhase_full_cycle (now : Z) (st : GameState) :
  players st <> [] ->
  exists st', advanceTimes 11 now st = Ok st' /\
    phase st' = phase st /\ turn st' = turn st + 1 /\
    length (players st') = length (players st) /\
    currentPlayerIndex st' =
      Nat.modulo (currentPlayerIndex st + 1) (length (players st)).
Proof.
  intros Hne.
  destruct (advanceTimes_spec 11 now st Hne) as (st' & E & P & T & L & I).
  exists st'. split; [exact E|].
  assert (Hc : countEnds 11 (phase st) = 1%nat) by (destruct (phase st); reflexivity).
  rewrite Hc in T, I. split; [rewrite P; destruct (phase st); reflexivity|].
  split; [lia|]. split; [exact L|]. exact I.
Qed.

Lemma advancePhase_full_cycle_witness :
  exists st', advanceTimes 11 0 upkeepState = Ok st' /\
    phase st' = phase upkeepState /\ turn st' = turn upkeepState + 1 /\
    length (players st') = length (players upkeepState) /\
    currentPlayerIndex st' =
      Nat.modulo (currentPlayerIndex upkeepState + 1) (length (players upkeepState)).
Proof. apply advancePhase_full_cycle. discriminate. Defined.

(** The draw step: leaving the upkeep, the active player (index
    [currentPlayerIndex]) moves the first card of the library to the end of
    the hand, with zone [hand], and every other field of that player (the
    other zones, life, mana pool, land flag, id, name, hand size, priority
    flag) is kept; with an empty library nothing happens (no error, no
    loss).  The other players are unchanged. *)
Theorem advancePhase_draw (now : Z) (st : GameState) :
  phase st = upkeep ->
  exists st', advancePhase now st = Ok st' /\ phase st' = draw /\
    forall i p, players st !! i = Some p ->
      exists p', players st' !! i = Some p' /\
        (i <> currentPlayerIndex st -> p' = p) /\
        (i = currentPlayerIndex st -> z_library (zones p) = [] -> p' = p) /\
        (forall c rest, i = currentPlayerIndex st -> z_library (zones p) = c :: rest ->
           z_library (zones p') = rest /\
           z_hand (zones p') = z_hand (zones p) ++ [set_zone c hand] /\
           z_battlefield (zones p') = z_battlefield (zones p) /\
           z_graveyard (zones p') = z_graveyard (zones p) /\
           z_exile (zones p') = z_exile (zones p) /\
           life p' = life p /\ manaPool p' = manaPool p /\
           hasPlayedLand p' = hasPlayedLand p /\
           p_id p' = p_id p /\ p_name p' = p_name p /\
           maxHandSize p' = maxHandSize p /\ hasPriority p' = hasPriority p).
Proof.
  intros Hph. unfold advancePhase, mbind, Result_bind, rbind. rewrite Hph.
  eexists. split; [reflexivity|]. split; [reflexivity|].
  intros i p Hp. simpl. rewrite list_lookup_imap, Hp. simpl.
  eexists. split; [reflexivity|]. unfold advancePlayer.
  change (getNextPhase upkeep) with draw.
  rewrite (bool_decide_eq_false_2 (draw = untap)) by discriminate.
  rewrite (bool_decide_eq_true_2 (draw = draw)) by reflexivity.
  rewrite (bool_decide_eq_false_2 (draw = end_)) by discriminate. simpl.
  split; [|split].
  - intros Hi. apply Nat.eqb_neq in Hi. rewrite Hi. reflexivity.
  - intros -> Hl. rewrite Nat.eqb_refl, Hl. destruct p as [? ? ? ? ? ? ? []]. simpl in *.
    subst. reflexivity.
  - intros c rest -> Hl. rewrite Nat.eqb_refl, Hl. simpl. repeat split; reflexivity.
Qed.

Lemma advancePhase_draw_witness :
  exists st', advancePhase 0 upkeepState = Ok st' /\ phase st' = draw /\
    forall i p, players upkeepState !! i = Some p ->
      exists p', players st' !! i = Some p' /\
        (i <> currentPlayerIndex upkeepState -> p' = p) /\
        (i = currentPlayerIndex upkeepState -> z_library (zones p) = [] -> p' = p) /\
        (forall c rest, i = currentPlayerIndex upkeepState ->
           z_library (zones p) = c :: rest ->
           z_library (zones p') = rest /\
           z_hand (zones p') = z_hand (zones p) ++ [set_zone c hand] /\
           z_battlefield (zones p') = z_battlefield (zones p) /\
           z_graveyard (zones p') = z_graveyard (zones p) /\
           z_exile (zones p') = z_exile (zones p) /\
           life p' = life p /\ manaPool p' = manaPool p /\
           hasPlayedLand p' = hasPlayedLand p /\
           p_id p' = p_id p /\ p_name p' = p_name p /\
           maxHandSize p' = maxHandSize p /\ hasPriority p' = hasPriority p).
Proof. apply advancePhase_draw. reflexivity. Defined.

(** ** Combat damage *)

(** After [resolveCombatDamage], every card left on any battlefield has
    positive toughness and less damage than its toughness.  Since cleanup
    looks at every battlefield card, not only creatures, a card whose
    template has no toughness (a land) never survives the damage step. *)
Theorem resolveCombatDamage_survivors (now : Z) (st st' : GameState) :
  resolveCombatDamage now st = Ok st' ->
  forall p c, In p (players st') -> In c (z_battlefield (zones p)) ->
    0 < getToughness c /\ damageMarked c < getToughness c /\
    toughness (template c) <> None.
Proof.
  intros H p c Hp Hc. unfold resolveCombatDamage in H.
  destruct (negb _); [discriminate|]. injection H as <-. simpl in Hp.
  apply in_map_iff in Hp as (p0 & <- & _).
  unfold cleanupPlayer, updateZones in Hc. simpl in Hc.
  apply list_elem_of_In, list_elem_of_filter in Hc as [Hd _].
  unfold shouldDie in Hd.
  destruct (getToughness c <=? 0) eqn:E1; [discriminate|].
  destruct (getToughness c <=? damageMarked c) eqn:E2; [discriminate|].
  apply Z.leb_gt in E1, E2. split; [lia|]. split; [lia|].
  intros Hn. unfold getToughness in E1. rewrite Hn in E1. simpl in E1. lia.
Qed.

Lemma resolveCombatDamage_survivors_witness :
  resolveCombatDamage 0 game9 = Ok game10 /\
  forall p c, In p (players game10) -> In c (z_battlefield (zones p)) ->
    0 < getToughness c /\ damageMarked c < getToughness c /\
    toughness (template c) <> None.
Proof.
  assert (E : resolveCombatDamage 0 game9 = Ok game10) by (vm_compute; reflexivity).
  split; [exact E|]. exact (resolveCombatDamage_survivors 0 game9 game10 E).
Defined.

(** ** Priority *)

Lemma findIndexPlayer_lookup (ps : list Player) (j : nat) (x : Player) :
  NoDup (map p_id ps) -> ps !! j = Some x -> findIndexPlayer ps (p_id x) = Some j.
Proof.
  revert j. induction ps as [|y ys IH]; intros j Hnd Hj; [discriminate|].
  simpl in Hnd. apply NoDup_cons in Hnd as [Hy Hnd]. destruct j as [|j].
  - injection Hj as ->. simpl. rewrite String.eqb_refl. reflexivity.
  - simpl in Hj. simpl. destruct (String.eqb_spec (p_id y) (p_id x)) as [Heq|_].
    + exfalso. apply Hy. rewrite Heq. apply list_elem_of_In, in_map, list_elem_of_In.
      exact (list_elem_of_lookup_2 _ _ _ Hj).
    + rewrite (IH j Hnd Hj). reflexivity.
Qed.

Lemma mod_shift_ne (i m n : nat) : (i < n)%nat -> (0 < m < n)%nat -> Nat.modulo (i + m) n <> i.
Proof.
  intros Hi Hm. destruct (Nat.lt_ge_cases (i + m) n) as [Hlt|Hge].
  - rewrite Nat.mod_small by exact Hlt. lia.
  - replace (i + m)%nat with ((i + m - n) + 1 * n)%nat by lia.
    rewrite Nat.Div0.mod_add. rewrite Nat.mod_small by lia. lia.
Qed.

Lemma advancePhase_set_priority (now t : Z) (st : GameState) (x : string) :
  advancePhase now (set_updatedAt (set_priority st x) t) = advancePhase now st.
Proof. destruct st. reflexivity. Qed.

Lemma set_priority_twice (st : GameState) (x y : string) (t t' : Z) :
  set_updatedAt (set_priority (set_updatedAt (set_priority st x) t) y) t' =
  set_updatedAt (set_priority st y) t'.
Proof. destruct st. reflexivity. Qed.

Lemma passTimes_succ_r (k : nat) (now : Z) (st : GameState) :
  passTimes (S k) now st = rbind (passTimes k now st) (passPriority now).
Proof.
  revert st. induction k as [|k IH]; intros st.
  - simpl. destruct (passPriority now st); reflexivity.
  - change (passTimes (S (S k)) now st) with
      (rbind (passPriority now st) (passTimes (S k) now)).
    change (passTimes (S k) now st) with
      (rbind (passPriority now st) (passTimes k now)).
    destruct (passPriority now st) as [s1|e]; [|reflexivity]. cbn [rbind]. apply IH.
Qed.

(** One [passPriority] from the player at index [j]: the next player in
    seat order gets priority, or, when that player is the active one and
    the stack is empty, the phase advances. *)
Lemma passPriority_next (now : Z) (st : GameState) (j : nat) (x : Player) :
  NoDup (map p_id (players st)) -> players st !! j = Some x ->
  priorityPlayerId st = p_id x ->
  exists y, players st !! Nat.modulo (j + 1) (length (players st)) = Some y /\
    passPriority now st =
      if String.eqb (p_id y) (activePlayerId st) && Nat.eqb (length (stack st)) 0
      then advancePhase now st
      else Ok (set_updatedAt (set_priority st (p_id y)) now).
Proof.
  intros Hnd Hj Hp.
  assert (Hlen : (0 < length (players st))%nat).
  { assert (Hs : is_Some (players st !! j)) by (exists x; exact Hj).
    apply lookup_lt_is_Some_1 in Hs. lia. }
  destruct (lookup_lt_is_Some_2 (players st) (Nat.modulo (j + 1) (length (players st))))
    as [y Hy]; [apply Nat.mod_upper_bound; lia|].
  exists y. split; [exact Hy|]. unfold passPriority.
  rewrite Hp, (findIndexPlayer_lookup _ _ _ Hnd Hj), Hy. reflexivity.
Qed.

Lemma findIndexPlayer_unique (ps : list Player) (i j : nat) (a b : Player) :
  NoDup (map p_id ps) -> ps !! i = Some a -> ps !! j = Some b -> p_id b = p_id a -> j = i.
Proof.
  intros Hnd Ha Hb Heq.
  pose proof (findIndexPlayer_lookup _ _ _ Hnd Ha) as E1.
  pose proof (findIndexPlayer_lookup _ _ _ Hnd Hb) as E2.
  rewrite Heq, E1 in E2. congruence.
Qed.

(** With distinct player ids, when the active player (seat [i]) holds
    priority and the stack is empty, [k] passes ([0 < k < n], [n] players)
    hand priority to seat [(i + k) mod n]; the [n]-th pass advances the
    phase, with the same result as [advancePhase] on the starting state. *)
Theorem passPriority_round (now : Z) (st : GameState) (i : nat) (a : Player) :
  NoDup (map p_id (players st)) -> players st !! i = Some a ->
  activePlayerId st = p_id a -> priorityPlayerId st = p_id a -> stack st = [] ->
  (forall k, (0 < k < length (players st))%nat ->
     exists b, players st !! Nat.modulo (i + k) (length (players st)) = Some b /\
       passTimes k now st = Ok (set_updatedAt (set_priority st (p_id b)) now)) /\
  passTimes (length (players st)) now st = advancePhase now st.
Proof.
  intros Hnd Ha Hact Hpr Hst.
  assert (Hi : (i < length (players st))%nat).
  { assert (Hs : is_Some (players st !! i)) by (exists a; exact Ha).
    apply lookup_lt_is_Some_1 in Hs. exact Hs. }
  assert (Hstep : forall k, (0 < k < length (players st))%nat ->
     exists b, players st !! Nat.modulo (i + k) (length (players st)) = Some b /\
       passTimes k now st = Ok (set_updatedAt (set_priority st (p_id b)) now)).
  { induction k as [|k IH]; intros Hk; [lia|]. destruct k as [|k].
    - destruct (passPriority_next now st i a Hnd Ha Hpr) as (b & Hb & Hpp).
      exists b. split; [exact Hb|].
      change (passTimes 1 now st) with (rbind (passPriority now st) (passTimes 0 now)).
      rewrite Hpp, Hact. destruct (String.eqb_spec (p_id b) (p_id a)) as [E|E].
      + exfalso. apply (mod_shift_ne i 1 (length (players st))); [exact Hi|lia|].
        exact (findIndexPlayer_unique _ _ _ _ _ Hnd Ha Hb E).
      + reflexivity.
    - destruct IH as (b' & Hb' & Hpt); [lia|].
      rewrite passTimes_succ_r, Hpt. cbn [rbind].
      destruct (passPriority_next now (set_updatedAt (set_priority st (p_id b')) now)
                  (Nat.modulo (i + S k) (length (players st))) b' Hnd Hb' eq_refl)
        as (b & Hb & Hpp).
      cbn [players set_updatedAt set_priority] in Hb.
      rewrite Nat.Div0.add_mod_idemp_l in Hb.
      replace (i + S k + 1)%nat with (i + S (S k))%nat in Hb by lia.
      exists b. split; [exact Hb|]. rewrite Hpp.
      cbn [activePlayerId set_updatedAt set_priority]. rewrite Hact.
      destruct (String.eqb_spec (p_id b) (p_id a)) as [E|E].
      + exfalso. apply (mod_shift_ne i (S (S k)) (length (players st))); [exact Hi|lia|].
        exact (findIndexPlayer_unique _ _ _ _ _ Hnd Ha Hb E).
      + cbn [andb]. rewrite set_priority_twice. reflexivity. }
  split; [exact Hstep|].
  assert (Hlast : forall sX jX x, players sX = players st -> activePlayerId sX = p_id a ->
            stack sX = [] -> players st !! jX = Some x -> priorityPlayerId sX = p_id x ->
            Nat.modulo (jX + 1) (length (players st)) = i ->
            passPriority now sX = advancePhase now sX).
  { intros sX jX x H1 H2 H3 H4 H5 H6.
    destruct (passPriority_next now sX jX x) as (y & Hy & Hpp);
      [rewrite H1; exact Hnd|rewrite H1; exact H4|exact H5|].
    rewrite H1, H6, Ha in Hy. injection Hy as <-.
    rewrite Hpp, H2, H3, String.eqb_refl. reflexivity. }
  replace (length (players st)) with (S (length (players st) - 1))%nat at 1 by lia.
  rewrite passTimes_succ_r.
  destruct (Nat.eq_dec (length (players st) - 1)%nat 0%nat) as [E0|E0].
  - rewrite E0. cbn [passTimes rbind].
    apply (Hlast st i a eq_refl Hact Hst Ha Hpr).
    replace (length (players st)) with 1%nat by lia.
    replace i with 0%nat by lia. reflexivity.
  - destruct (Hstep (length (players st) - 1)%nat) as (b' & Hb' & Hpt); [lia|].
    rewrite Hpt. cbn [rbind].
    rewrite (Hlast (set_updatedAt (set_priority st (p_id b')) now) _ b' eq_refl Hact Hst Hb' eq_refl).
    + apply advancePhase_set_priority.
    + rewrite Nat.Div0.add_mod_idemp_l.
      replace (i + (length (players st) - 1) + 1)%nat
        with (i + 1 * length (players st))%nat by lia.
      rewrite Nat.Div0.mod_add. apply Nat.mod_small. exact Hi.
Qed.

Lemma passPriority_round_witness :
  (forall k, (0 < k < length (players threePlayers))%nat ->
     exists b, players threePlayers !! Nat.modulo (0 + k) (length (players threePlayers))
                 = Some b /\
       passTimes k 0 threePlayers =
         Ok (set_updatedAt (set_priority threePlayers (p_id b)) 0)) /\
  passTimes (length (players threePlayers)) 0 threePlayers = advancePhase 0 threePlayers.
Proof.
  apply (passPriority_round 0 threePlayers 0 (plr "p1" 20 createEmptyManaPool [] [] []));
    [cbn; constructor; [|constructor; [|constructor; [|constructor]]]; set_solver
    |reflexivity..].
Defined.

(** ** Concession *)

Lemma findIndexPlayer_filter_none (ps : list Player) (pid : string) :
  findIndexPlayer (filter (fun p => negb (String.eqb (p_id p) pid)) ps) pid = None.
Proof.
  induction ps as [|p ps IH]; [reflexivity|]. rewrite filter_cons.
  destruct (String.eqb_spec (p_id p) pid) as [E|E]; case_decide as D;
    simpl in D; try contradiction; [exact IH|].
  simpl. apply String.eqb_neq in E. rewrite E, IH. reflexivity.
Qed.

(** When the player holding priority concedes and at least two other
    players remain, the game goes on without them but [priorityPlayerId]
    still names them: passing priority returns the state unchanged, and no
    remaining player can pass the phase, play a land or cast a spell. *)
Theorem concede_priority_stuck (now now' : Z) (st st' : GameState) (pid q : string) :
  priorityPlayerId st = pid ->
  processAction now st pid CONCEDE = Ok st' ->
  status st' <> completed ->
  priorityPlayerId st' = pid /\
  Forall (fun p => p_id p <> pid) (players st') /\
  passPriority now' st' = Ok st' /\
  (q <> pid -> processAction now' st' q PASS_PHASE = Err "You don't have priority") /\
  (q <> pid -> forall id,
     processAction now' st' q (PLAY_LAND id) = Err "Cannot play land at this time") /\
  (q <> pid -> forall id t, exists e, processAction now' st' q (CAST_SPELL id t) = Err e).
Proof.
  intros Hpr H Hc. unfold processAction in H.
  case_bool_decide as Hs; [discriminate|].
  assert (E : st' = set_updatedAt (set_players st
                (filter (fun p => negb (String.eqb (p_id p) pid)) (players st))) now).
  { unfold handleConcede in H.
    destruct (filter _ (players st)) as [|w [|w2 rest]] eqn:Ef; injection H as <-;
      [reflexivity|contradiction|reflexivity]. }
  subst st'. split; [exact Hpr|]. split; [|split; [|split; [|split]]].
  - apply List.Forall_forall. intros p Hp. cbn in Hp.
    apply list_elem_of_In, list_elem_of_filter in Hp as [Hp _].
    destruct (String.eqb_spec (p_id p) pid); [contradiction|assumption].
  - unfold passPriority. cbn [players priorityPlayerId set_updatedAt set_players].
    rewrite Hpr, findIndexPlayer_filter_none. reflexivity.
  - intros Hq. unfold processAction. rewrite bool_decide_eq_false_2 by exact Hs.
    cbn [priorityPlayerId set_updatedAt set_players]. rewrite Hpr.
    destruct (String.eqb_spec pid q); [congruence|reflexivity].
  - intros Hq id. unfold processAction. rewrite bool_decide_eq_false_2 by exact Hs.
    unfold playLand, canTakeAction. cbn [priorityPlayerId set_updatedAt set_players].
    rewrite Hpr. destruct (String.eqb_spec pid q); [congruence|reflexivity].
  - intros Hq id t. unfold processAction. rewrite bool_decide_eq_false_2 by exact Hs.
    unfold castSpell.
    destruct (findPlayer _ q) as [p|]; [|eexists; reflexivity].
    destruct (findIndexCard _ id) as [j|]; [|eexists; reflexivity].
    destruct (_ !! j) as [card|]; [|eexists; reflexivity].
    destruct (canTakeAction _ q _) eqn:Ec.
    + exfalso. unfold canTakeAction in Ec.
      cbn [priorityPlayerId set_updatedAt set_players] in Ec. rewrite Hpr in Ec.
      destruct (String.eqb_spec pid q); [congruence|discriminate].
    + eexists. reflexivity.
Qed.

Lemma concede_priority_stuck_witness :
  priorityPlayerId threeAfterConcede = "p1" /\
  Forall (fun p => p_id p <> "p1") (players threeAfterConcede) /\
  passPriority 5 threeAfterConcede = Ok threeAfterConcede /\
  ("p2" <> "p1" -> processAction 5 threeAfterConcede "p2" PASS_PHASE =
                     Err "You don't have priority") /\
  ("p2" <> "p1" -> forall id, processAction 5 threeAfterConcede "p2" (PLAY_LAND id) =
                     Err "Cannot play land at this time") /\
  ("p2" <> "p1" -> forall id t, exists e,
     processAction 5 threeAfterConcede "p2" (CAST_SPELL id t) = Err e).
Proof.
  apply (concede_priority_stuck 0 5 threePlayers threeAfterConcede "p1" "p2");
    [reflexivity|vm_compute; reflexivity|vm_compute; discriminate].
Defined.

(** In a two-player game with distinct ids, a concession by either player
    ends the game with the other one as winner (the player list is kept),
    and every later action of anyone fails. *)
Theorem concede_two_players_final (now : Z) (st : GameState) (a b : Player) (pid : string) :
  players st = [a; b] -> p_id a <> p_id b -> pid = p_id a \/ pid = p_id b ->
  status st <> completed ->
  exists st', processAction now st pid CONCEDE = Ok st' /\
    status st' = completed /\
    winner st' = Some (if String.eqb pid (p_id a) then p_id b else p_id a) /\
    players st' = players st /\
    forall now' q act, processAction now' st' q act = Err "Game is already completed".
Proof.
  intros Hps Hab Hpid Hs. unfold processAction.
  rewrite bool_decide_eq_false_2 by exact Hs. unfold handleConcede. rewrite Hps.
  assert (Hba : String.eqb (p_id b) (p_id a) = false) by (apply String.eqb_neq; congruence).
  assert (Hab' : String.eqb (p_id a) (p_id b) = false) by (apply String.eqb_neq; congruence).
  destruct Hpid as [->| ->]; rewrite !filter_cons, filter_nil;
    rewrite ?String.eqb_refl, ?Hba, ?Hab';
    repeat case_decide as D; simpl in D; try contradiction;
    (eexists; split; [reflexivity|]); cbn;
    (split; [reflexivity|]; split; [rewrite ?String.eqb_refl, ?Hba; reflexivity|]);
    (split; [exact Hps|]); intros now' q act; reflexivity.
Qed.

Lemma concede_two_players_final_witness :
  exists st', processAction 0 twoPlayers "p2" CONCEDE = Ok st' /\
    status st' = completed /\
    winner st' = Some (if String.eqb "p2" "p1" then "p2" else "p1") /\
    players st' = players twoPlayers /\
    forall now' q act, processAction now' st' q act = Err "Game is already completed".
Proof.
  apply (concede_two_players_final 0 twoPlayers (plr "p1" 20 createEmptyManaPool [] [] [])
           (plr "p2" 20 createEmptyManaPool [] [] []) "p2");
    [reflexivity|discriminate|right; reflexivity|discriminate].
Defined.

(** ** Lands *)

Lemma find_update_first {A} (pred : A -> bool) (f : A -> A) (xs : list A) :
  (forall x, pred x = true -> pred (f x) = true) ->
  find pred (update_first pred f xs) = option_map f (find pred xs).
Proof.
  intros Hf. induction xs as [|x xs IH]; [reflexivity|]. simpl.
  destruct (pred x) eqn:E; simpl; [rewrite (Hf x E); reflexivity|rewrite E; exact IH].
Qed.

(** After a successful [playLand], a second [playLand] on the returned state
    by the same player (any card, any clock reading) fails with "Already
    played a land this turn": the
    state keeps the phase, priority, active player and stack, and the
    player's [hasPlayedLand] is now set. *)
Theorem playLand_once_per_turn (now now' : Z) (st st' : GameState) (pid id id' : string) :
  playLand now st pid id = Ok st' ->
  playLand now' st' pid id' = Err "Already played a land this turn".
Proof.
  intros H. unfold playLand in H.
  destruct (negb (canTakeAction st pid land)) eqn:Ec; [discriminate|].
  destruct (findPlayer (players st) pid) as [p|] eqn:Ep; [|discriminate].
  destruct (hasPlayedLand p); [discriminate|].
  destruct (findIndexCard _ id) as [j|]; [|discriminate].
  destruct (_ !! j) as [card|]; [|discriminate].
  destruct (negb (isLand _)); [discriminate|]. injection H as <-.
  unfold playLand. unfold canTakeAction at 1.
  cbn [priorityPlayerId activePlayerId phase stack players set_updatedAt set_players].
  unfold canTakeAction in Ec. rewrite Ec.
  unfold findPlayer, updatePlayer. rewrite find_update_first by (intros x Hx; exact Hx).
  unfold findPlayer in Ep. rewrite Ep. reflexivity.
Qed.

Lemma playLand_once_per_turn_witness :
  playLand 0 game3 "p1" "p1-card-0" = Ok game4 /\
  playLand 7 game4 "p1" "p1-card-3" = Err "Already played a land this turn".
Proof.
  assert (E : playLand 0 game3 "p1" "p1-card-0" = Ok game4) by (vm_compute; reflexivity).
  split; [exact E|]. exact (playLand_once_per_turn 0 7 game3 game4 "p1" _ _ E).
Defined.

(** [castSpell] does not refuse a land: when it succeeds on a card of class
    [Land], the card leaves the hand for the graveyard (a land is not a
    permanent for [castSpell]), the battlefield is untouched and
    [hasPlayedLand] is unchanged. *)
Theorem castSpell_land_to_graveyard (now : Z) (st st' : GameState) (pid id : string)
    (t : option (list string)) (p : Player) (j : nat) (card : CardInPlay) :
  findPlayer (players st) pid = Some p ->
  findIndexCard (z_hand (zones p)) id = Some j ->
  z_hand (zones p) !! j = Some card ->
  class (template card) = Land ->
  castSpell now st pid id t = Ok st' ->
  exists p', findPlayer (players st') pid = Some p' /\
    z_hand (zones p') = removeAt j (z_hand (zones p)) /\
    z_battlefield (zones p') = z_battlefield (zones p) /\
    z_graveyard (zones p') = z_graveyard (zones p) ++ [set_zone card graveyard] /\
    hasPlayedLand p' = hasPlayedLand p.
Proof.
  intros Hp Hj Hc Hcl H. unfold castSpell in H. rewrite Hp, Hj, Hc in H.
  destruct (negb (canTakeAction _ _ _)); [discriminate|].
  destruct (payManaCost _ _) as [pool'|]; [|discriminate]. injection H as <-.
  cbn [players set_updatedAt set_players].
  unfold findPlayer, updatePlayer. rewrite find_update_first by (intros x Hx; exact Hx).
  unfold findPlayer in Hp. rewrite Hp. cbn [option_map].
  eexists. split; [reflexivity|]. rewrite Hcl. cbn. repeat split; reflexivity.
Qed.

Lemma castSpell_land_to_graveyard_witness :
  exists p', findPlayer (players game3cast) "p1" = Some p' /\
    z_hand (zones p') = removeAt 0 (z_hand (zones game3p1)) /\
    z_battlefield (zones p') = z_battlefield (zones game3p1) /\
    z_graveyard (zones p') = z_graveyard (zones game3p1) ++ [set_zone game3land graveyard] /\
    hasPlayedLand p' = hasPlayedLand game3p1.
Proof.
  apply (castSpell_land_to_graveyard 0 game3 game3cast "p1" "p1-card-0" None game3p1 0
           game3land); vm_compute; reflexivity.
Defined.

(** ** Parsing mana costs *)

Lemma testDigit_get (s : string) (i : nat) (b : Ascii.ascii) :
  testDigit s = false -> String.get i s = Some b -> isDigitAscii b = false.
Proof.
  revert i. induction s as [|a s IH]; intros i Hs Hg; [discriminate|].
  simpl in Hs. apply orb_false_iff in Hs as [Ha Hs].
  destruct i as [|i]; [injection Hg as <-; exact Ha|exact (IH i Hs Hg)].
Qed.

Lemma cost_incr_other (cost : ManaCost) (x : string) :
  existsb (String.eqb x) ["W"; "U"; "B"; "R"; "G"; "C"] = false -> cost_incr cost x = cost.
Proof.
  intros H. destruct cost. unfold cost_incr. simpl in H.
  repeat match goal with
         | H : context [String.eqb x ?y] |- _ => destruct (String.eqb x y); simpl in H
         end; try discriminate; reflexivity.
Qed.

Lemma parseStep_nodigit (s : string) (i : nat) (cost : ManaCost) :
  (forall b, String.get i s = Some b -> isDigitAscii b = false) ->
  parseStep s i cost =
    (i, match charAt s i with Some x => cost_incr cost x | None => cost end).
Proof.
  intros Hd. unfold parseStep, charAt. destruct (String.get i s) as [b|] eqn:E; [|reflexivity].
  cbn [truthyStr from_option id testDigit]. rewrite (Hd b eq_refl). cbn [andb orb].
  destruct (existsb _ _) eqn:Ex; [reflexivity|]. rewrite cost_incr_other by exact Ex.
  reflexivity.
Qed.

Lemma parseLoop_shift (a : Ascii.ascii) (s : string) :
  testDigit s = false ->
  forall fuel i cost, parseLoop (String a s) fuel (S i) cost = parseLoop s fuel i cost.
Proof.
  intros Hs fuel. induction fuel as [|fuel IH]; intros i cost; [reflexivity|].
  cbn [parseLoop].
  change (Nat.ltb (S i) (String.length (String a s))) with (Nat.ltb i (String.length s)).
  destruct (Nat.ltb i (String.length s)); [|reflexivity].
  rewrite (parseStep_nodigit (String a s) (S i) cost)
    by (intros b Hb; exact (testDigit_get s i b Hs Hb)).
  rewrite (parseStep_nodigit s i cost) by (intros b Hb; exact (testDigit_get s i b Hs Hb)).
  exact (IH (S i) _).
Qed.

Lemma parseLoop_nodigit (s : string) :
  testDigit s = false -> forall fuel cost, (String.length s < fuel)%nat ->
  parseLoop s fuel 0 cost = fold_left letterStep (String.list_ascii_of_string s) cost.
Proof.
  induction s as [|a s IH]; intros Hs fuel cost Hf;
    (destruct fuel as [|fuel]; [simpl in Hf; lia|]); [reflexivity|].
  cbn [parseLoop].
  change (Nat.ltb 0 (String.length (String a s))) with true. cbv iota.
  rewrite (parseStep_nodigit (String a s) 0 cost)
    by (intros b Hb; exact (testDigit_get (String a s) 0 b Hs Hb)).
  simpl in Hs. apply orb_false_iff in Hs as [_ Hs].
  rewrite parseLoop_shift by exact Hs.
  exact (IH Hs fuel _ ltac:(simpl in Hf; lia)).
Qed.

Lemma fold_letterStep (l : list Ascii.ascii) (w u b r g c gen : Z) :
  fold_left letterStep l (mkManaCost w u b r g c gen) =
  mkManaCost (w + Z.of_nat (count_occ Ascii.ascii_dec l "W"%char))
    (u + Z.of_nat (count_occ Ascii.ascii_dec l "U"%char))
    (b + Z.of_nat (count_occ Ascii.ascii_dec l "B"%char))
    (r + Z.of_nat (count_occ Ascii.ascii_dec l "R"%char))
    (g + Z.of_nat (count_occ Ascii.ascii_dec l "G"%char))
    (c + Z.of_nat (count_occ Ascii.ascii_dec l "C"%char)) gen.
Proof.
  revert w u b r g c. induction l as [|a l IH]; intros w u b r g c.
  - simpl. f_equal; lia.
  - cbn [fold_left]. unfold letterStep at 2, cost_incr.
    assert (Hq : forall y, String.eqb (String a EmptyString) (String y EmptyString) =
                           Ascii.eqb a y) by (intros y; simpl; destruct (Ascii.eqb a y); reflexivity).
    rewrite !Hq.
    destruct (Ascii.eqb_spec a "W"%char) as [->|HW];
      [rewrite IH; cbn [count_occ]; simpl; f_equal; lia|].
    destruct (Ascii.eqb_spec a "U"%char) as [->|HU];
      [rewrite IH; cbn [count_occ]; simpl; f_equal; lia|].
    destruct (Ascii.eqb_spec a "B"%char) as [->|HB];
      [rewrite IH; cbn [count_occ]; simpl; f_equal; lia|].
    destruct (Ascii.eqb_spec a "R"%char) as [->|HR];
      [rewrite IH; cbn [count_occ]; simpl; f_equal; lia|].
    destruct (Ascii.eqb_spec a "G"%char) as [->|HG];
      [rewrite IH; cbn [count_occ]; simpl; f_equal; lia|].
    destruct (Ascii.eqb_spec a "C"%char) as [->|HC];
      [rewrite IH; cbn [count_occ]; simpl; f_equal; lia|].
    rewrite IH, !count_occ_cons_neq by assumption. reflexivity.
Qed.

Lemma parseManaString_counts (s : string) :
  testDigit s = false ->
  parseManaString s =
    mkManaCost (countChar "W" s) (countChar "U" s) (countChar "B" s)
      (countChar "R" s) (countChar "G" s) (countChar "C" s) 0.
Proof.
  intros Hs. unfold parseManaString.
  rewrite parseLoop_nodigit by (exact Hs || lia).
  rewrite fold_letterStep. reflexivity.
Qed.

(** On a cost string without decimal digits, [parseManaString] counts
    each of the letters W, U, B, R, G and C (every other character is
    skipped) and the generic part is 0. *)
Theorem parseManaString_no_digits (s : string) :
  testDigit s = false ->
  parseManaString s =
    mkManaCost (countChar "W" s) (countChar "U" s) (countChar "B" s)
      (countChar "R" s) (countChar "G" s) (countChar "C" s) 0.
Proof. exact (parseManaString_counts s). Qed.

Lemma parseManaString_no_digits_witness :
  testDigit "{W}U W-Bx" = false /\
  parseManaString "{W}U W-Bx" =
    mkManaCost (countChar "W" "{W}U W-Bx") (countChar "U" "{W}U W-Bx")
      (countChar "B" "{W}U W-Bx") (countChar "R" "{W}U W-Bx")
      (countChar "G" "{W}U W-Bx") (countChar "C" "{W}U W-Bx") 0.
Proof.
  assert (H : testDigit "{W}U W-Bx" = false) by reflexivity.
  split; [exact H|]. exact (parseManaString_no_digits _ H).
Defined.

Lemma parseLoop_S (s : string) (fuel i : nat) (cost : ManaCost) :
  parseLoop s (S fuel) i cost =
    if Nat.ltb i (String.length s) then
      let '(i', cost') := parseStep s i cost in parseLoop s fuel (S i') cost'
    else cost.
Proof. reflexivity. Qed.

(** A single digit followed by a digit-free string. *)
Lemma parseManaString_digit_cons (d : Ascii.ascii) (L : string) :
  isDigitAscii d = true -> testDigit L = false ->
  parseManaString (String d L) =
    mkManaCost (countChar "W" L) (countChar "U" L) (countChar "B" L)
      (countChar "R" L) (countChar "G" L) (countChar "C" L)
      (Z.of_nat (Ascii.nat_of_ascii d) - 48).
Proof.
  intros Hd HL. unfold parseManaString. rewrite parseLoop_S.
  change (Nat.ltb 0 (String.length (String d L))) with true. cbv iota.
  assert (Hla : lookAhead (String d L) (charAt (String d L) (0 + 1))
                  (String.length (String d L)) 0 (String d EmptyString)
                = (0%nat, String d EmptyString)).
  { destruct L as [|b L']; [reflexivity|].
    simpl in HL. apply orb_false_iff in HL as [Hb _].
    cbn [String.length lookAhead].
    change (charAt (String d (String b L')) (0 + 1)) with (Some (String b EmptyString)).
    cbn [truthyStr from_option id testDigit]. rewrite Hb. reflexivity. }
  unfold parseStep.
  change (charAt (String d L) 0) with (Some (String d EmptyString)).
  cbn [truthyStr from_option id testDigit]. rewrite Hd. cbn [andb orb].
  rewrite Hla. unfold parseInt10. rewrite Hd. cbn [parseIntDigits]. rewrite Hd.
  cbn [parseIntDigits add_generic].
  rewrite parseLoop_shift by exact HL.
  rewrite parseLoop_nodigit by (exact HL || (simpl; lia)).
  rewrite fold_letterStep. unfold countChar. f_equal; lia.
Qed.

(** ** Formatting mana costs *)

Lemma string_app_nil_r (s : string) : s +:+ EmptyString = s.
Proof. induction s as [|a s IH]; [reflexivity|]. exact (f_equal (String a) IH). Qed.

Lemma app_if_rep (x : Z) (r : string) (a : Ascii.ascii) :
  0 <= x ->
  (if x >? 0 then r +:+ repeatStr (String a EmptyString) (Z.to_nat x) else r) =
  r +:+ repeatStr (String a EmptyString) (Z.to_nat x).
Proof.
  intros Hx. destruct (x >? 0) eqn:E; [reflexivity|].
  rewrite Z.gtb_ltb, Z.ltb_ge in E. replace x with 0 by lia.
  simpl. symmetry. apply string_app_nil_r.
Qed.

Lemma list_repeatStr (a : Ascii.ascii) (n : nat) :
  String.list_ascii_of_string (repeatStr (String a EmptyString) n) = repeat a n.
Proof.
  induction n as [|n IH]; [reflexivity|]. cbn [repeatStr].
  rewrite list_ascii_of_string_app, IH. reflexivity.
Qed.

Lemma testDigit_list (s : string) :
  testDigit s = existsb isDigitAscii (String.list_ascii_of_string s).
Proof. induction s as [|a s IH]; [reflexivity|]. simpl. rewrite IH. reflexivity. Qed.

Lemma existsb_repeat_false (f : Ascii.ascii -> bool) (a : Ascii.ascii) (n : nat) :
  f a = false -> existsb f (repeat a n) = false.
Proof. intros Ha. induction n as [|n IH]; [reflexivity|]. simpl. rewrite Ha, IH. reflexivity. Qed.

Lemma count_repeat (a y : Ascii.ascii) (n : nat) :
  count_occ Ascii.ascii_dec (repeat y n) a = if Ascii.ascii_dec y a then n else O.
Proof.
  induction n as [|n IH]; [destruct (Ascii.ascii_dec y a); reflexivity|].
  simpl. rewrite IH. destruct (Ascii.ascii_dec y a); reflexivity.
Qed.

Lemma parseManaString_or_zero (s : string) :
  parseManaString (match s with EmptyString => "0" | _ => s end) = parseManaString s.
Proof. destruct s; reflexivity. Qed.

Lemma numToString_digit (n : Z) :
  1 <= n <= 9 ->
  exists d, numToString n = String d EmptyString /\ isDigitAscii d = true /\
    Z.of_nat (Ascii.nat_of_ascii d) - 48 = n.
Proof.
  intros Hn.
  assert (n = 1 \/ n = 2 \/ n = 3 \/ n = 4 \/ n = 5 \/ n = 6 \/ n = 7 \/ n = 8 \/ n = 9)
    as Hc by lia.
  repeat destruct Hc as [->|Hc]; try subst n;
    (eexists; split; [reflexivity|split; reflexivity]).
Qed.

(** Format then parse: a cost with non-negative components and a generic
    part of at most 9 (a single digit) survives [formatManaCost] followed
    by [parseManaString] unchanged, the all-zero cost included (formatted
    as "0"). *)
Theorem formatManaCost_roundtrip (c : ManaCost) :
  0 <= cW c -> 0 <= cU c -> 0 <= cB c -> 0 <= cR c -> 0 <= cG c -> 0 <= cC c ->
  0 <= generic c <= 9 ->
  parseManaString (formatManaCost c) = c.
Proof.
  destruct c as [w u b r g cc gen]. cbn [cW cU cB cR cG cC generic].
  intros Hw Hu Hb Hr Hg Hc Hgen. unfold formatManaCost.
  cbn [cW cU cB cR cG cC generic].
  rewrite (app_if_rep cc), (app_if_rep g), (app_if_rep r), (app_if_rep b),
    (app_if_rep u), (app_if_rep w) by lia.
  rewrite parseManaString_or_zero.
  set (L := ((((("" +:+ repeatStr "W" (Z.to_nat w)) +:+ repeatStr "U" (Z.to_nat u))
              +:+ repeatStr "B" (Z.to_nat b)) +:+ repeatStr "R" (Z.to_nat r))
              +:+ repeatStr "G" (Z.to_nat g)) +:+ repeatStr "C" (Z.to_nat cc)).
  assert (HLl : String.list_ascii_of_string L =
     repeat "W"%char (Z.to_nat w) ++ repeat "U"%char (Z.to_nat u) ++
     repeat "B"%char (Z.to_nat b) ++ repeat "R"%char (Z.to_nat r) ++
     repeat "G"%char (Z.to_nat g) ++ repeat "C"%char (Z.to_nat cc)).
  { unfold L. rewrite !list_ascii_of_string_app, !list_repeatStr.
    simpl. rewrite <- !app_assoc. reflexivity. }
  assert (HLd : testDigit L = false).
  { rewrite testDigit_list, HLl, !existsb_app, !existsb_repeat_false by reflexivity.
    reflexivity. }
  assert (HLc : forall a, countChar a L = Z.of_nat (count_occ Ascii.ascii_dec
      (repeat "W"%char (Z.to_nat w) ++ repeat "U"%char (Z.to_nat u) ++
       repeat "B"%char (Z.to_nat b) ++ repeat "R"%char (Z.to_nat r) ++
       repeat "G"%char (Z.to_nat g) ++ repeat "C"%char (Z.to_nat cc)) a)).
  { intros a. unfold countChar. rewrite HLl. reflexivity. }
  destruct (Z.eq_dec gen 0) as [->|Hne].
  - change (0 >? 0) with false. cbv iota.
    change (((((("" +:+ repeatStr "W" (Z.to_nat w)) +:+ repeatStr "U" (Z.to_nat u))
              +:+ repeatStr "B" (Z.to_nat b)) +:+ repeatStr "R" (Z.to_nat r))
              +:+ repeatStr "G" (Z.to_nat g)) +:+ repeatStr "C" (Z.to_nat cc)) with L.
    rewrite parseManaString_counts by exact HLd.
    rewrite !HLc, !count_occ_app, !count_repeat. cbn. f_equal; lia.
  - destruct (numToString_digit gen ltac:(lia)) as (d & Hs & Hd & Hv).
    rewrite (proj2 (Z.gtb_lt gen 0)) by lia. cbv iota. rewrite Hs.
    match goal with |- parseManaString ?R = _ => replace R with (String d L) end.
    + rewrite parseManaString_digit_cons by assumption.
      rewrite !HLc, !count_occ_app, !count_repeat. cbn. f_equal; lia.
    + apply list_ascii_of_string_inj. rewrite !list_ascii_of_string_app.
      cbn [String.list_ascii_of_string]. unfold L. rewrite !list_ascii_of_string_app.
      reflexivity.
Qed.

Lemma formatManaCost_roundtrip_witness :
  (0 <= 2 /\ 0 <= 0 /\ 0 <= 1 /\ 0 <= 0 /\ 0 <= 3 /\ 0 <= 1 /\ 0 <= 7 <= 9) /\
  parseManaString (formatManaCost (mkManaCost 2 0 1 0 3 1 7)) = mkManaCost 2 0 1 0 3 1 7.
Proof.
  split; [lia|].
  apply (formatManaCost_roundtrip (mkManaCost 2 0 1 0 3 1 7)); simpl; lia.
Defined.

(** ** Unblocked combat damage *)

Lemma allBattlefield_addLife (ps : list Player) (id : string) (n : Z) :
  allBattlefield (updatePlayer ps id (addLife n)) = allBattlefield ps.
Proof.
  unfold updatePlayer. induction ps as [|p ps IH]; [reflexivity|]. simpl.
  destruct (playerIs id p); simpl; [reflexivity|]. rewrite IH. reflexivity.
Qed.

Lemma findPlayer_update_same (ps : list Player) (id : string) (f : Player -> Player) :
  (forall p, p_id (f p) = p_id p) ->
  findPlayer (updatePlayer ps id f) id = option_map f (findPlayer ps id).
Proof.
  intros Hf. unfold findPlayer, updatePlayer. apply find_update_first.
  intros x Hx. unfold playerIs in *. rewrite Hf. exact Hx.
Qed.

Lemma findPlayer_update_other (ps : list Player) (x id : string) (f : Player -> Player) :
  x <> id -> (forall p, p_id (f p) = p_id p) ->
  findPlayer (updatePlayer ps x f) id = findPlayer ps id.
Proof.
  intros Hne Hf. unfold findPlayer, updatePlayer.
  induction ps as [|p ps IH]; [reflexivity|]. simpl.
  destruct (playerIs x p) eqn:Ex; simpl.
  - unfold playerIs in *. rewrite Hf.
    apply String.eqb_eq in Ex. rewrite Ex.
    destruct (String.eqb_spec x id); [contradiction|reflexivity].
  - destruct (playerIs id p); [reflexivity|exact IH].
Qed.

Lemma findPlayer_map (ps : list Player) (id : string) (g : Player -> Player) :
  (forall p, p_id (g p) = p_id p) ->
  findPlayer (map g ps) id = option_map g (findPlayer ps id).
Proof.
  intros Hg. unfold findPlayer. induction ps as [|p ps IH]; [reflexivity|]. simpl.
  unfold playerIs at 1. rewrite Hg. fold (playerIs id p).
  destruct (playerIs id p); [reflexivity|exact IH].
Qed.

(** [hitPlayer] on a defender that exists: its life drops by [power]
    (a Lifelink gain goes to another player), and no battlefield changes. *)
Lemma hitPlayer_spec (ps : list Player) (a : Attacker) (card : CardInPlay) (p : Z)
    (d : Player) :
  findPlayer ps (defendingPlayerId a) = Some d ->
  hasLifelink card = false \/ controllerId card <> defendingPlayerId a ->
  allBattlefield (hitPlayer ps a card p) = allBattlefield ps /\
  exists d', findPlayer (hitPlayer ps a card p) (defendingPlayerId a) = Some d' /\
    life d' = life d - p.
Proof.
  intros Hd Hl. unfold hitPlayer. rewrite Hd.
  assert (H1 : findPlayer (updatePlayer ps (defendingPlayerId a) (addLife (- p)))
                 (defendingPlayerId a) = Some (addLife (- p) d)).
  { rewrite findPlayer_update_same by reflexivity. rewrite Hd. reflexivity. }
  destruct (hasLifelink card) eqn:El.
  - destruct Hl as [Hl|Hl]; [discriminate|].
    destruct (findPlayer _ (controllerId card)).
    + rewrite !allBattlefield_addLife. split; [reflexivity|].
      rewrite findPlayer_update_other by (exact Hl || reflexivity).
      rewrite H1. eexists. split; [reflexivity|]. simpl. lia.
    + rewrite allBattlefield_addLife. split; [reflexivity|].
      rewrite H1. eexists. split; [reflexivity|]. simpl. lia.
  - rewrite allBattlefield_addLife. split; [reflexivity|].
    rewrite H1. eexists. split; [reflexivity|]. simpl. lia.
Qed.

(** A single unblocked attacker, no blockers: the defending player loses
    the attacker's power, twice with Double Strike (once in each damage
    pass).  A Lifelink gain, if any, goes to a different player. *)
Theorem resolveCombatDamage_unblocked (now : Z) (st st' : GameState)
    (aid did : string) (card : CardInPlay) (d : Player) :
  attackers (combat st) = [mkAttacker aid did []] -> blockers (combat st) = [] ->
  findCard (players st) aid = Some card ->
  hasLifelink card = false \/ controllerId card <> did ->
  findPlayer (players st) did = Some d ->
  resolveCombatDamage now st = Ok st' ->
  exists d', findPlayer (players st') did = Some d' /\
    life d' = life d - (if hasDoubleStrike card then 2 else 1) * getPower card.
Proof.
  intros Ha Hb Hc Hl Hd H. unfold resolveCombatDamage in H.
  destruct (negb _); [discriminate|]. injection H as <-.
  cbn [players set_updatedAt set_combat cleanupDeadCreatures set_players].
  rewrite findPlayer_map by reflexivity.
  unfold resolveRegularDamage, resolveFirstStrikeDamage.
  cbn [players combat set_players attackers blockers].
  rewrite Ha, Hb. cbn [fold_left].
  assert (Hfd : hasDoubleStrike card = true -> hasFirstStrike card = true).
  { unfold hasFirstStrike. intros ->. apply orb_true_r. }
  set (A := mkAttacker aid did []).
  assert (Hreg : forall ps d0, findCard ps aid = Some card -> findPlayer ps did = Some d0 ->
            exists d', findPlayer (regularAttacker ps A) did = Some d' /\
              life d' = life d0 - (if hasFirstStrike card && negb (hasDoubleStrike card)
                                   then 0 else getPower card)).
  { intros ps d0 Hc0 Hd0. unfold regularAttacker. cbn [a_instanceId A]. rewrite Hc0.
    destruct (hasFirstStrike card && negb (hasDoubleStrike card)).
    - exists d0. split; [exact Hd0|]. lia.
    - cbn [blockedBy A length Nat.ltb Nat.leb].
      destruct (hitPlayer_spec ps A card (getPower card) d0 Hd0 Hl) as [_ (d' & E & L)].
      exists d'. split; [exact E|exact L]. }
  unfold firstStrikeAttacker at 1. cbn [a_instanceId A]. rewrite Hc.
  destruct (hasFirstStrike card) eqn:Ef; cbn [negb].
  - cbn [blockedBy A length Nat.ltb Nat.leb].
    destruct (hitPlayer_spec (players st) A card (getPower card) d Hd Hl)
      as [Hbf (d1 & E1 & L1)].
    assert (Hc1 : findCard (hitPlayer (players st) A card (getPower card)) aid = Some card)
      by (unfold findCard; rewrite Hbf; exact Hc).
    destruct (Hreg _ d1 Hc1 E1) as (d' & E & L).
    exists (cleanupPlayer d'). rewrite E. split; [reflexivity|].
    change (life (cleanupPlayer d')) with (life d'). rewrite L, L1.
    destruct (hasDoubleStrike card); cbn; lia.
  - destruct (Hreg _ d Hc Hd) as (d' & E & L).
    exists (cleanupPlayer d'). rewrite E. split; [reflexivity|].
    change (life (cleanupPlayer d')) with (life d'). rewrite L.
    destruct (hasDoubleStrike card) eqn:Eds; [discriminate (Hfd eq_refl)|]. cbn. lia.
Qed.

Lemma resolveCombatDamage_unblocked_witness :
  exists d', findPlayer (players (unwrapState
                 (resolveCombatDamage 0 (unblockedCombat ["DOUBLE_STRIKE"])))) "p2" = Some d' /\
    life d' = life (plr "p2" 20 createEmptyManaPool [] [] [wall]) -
      (if hasDoubleStrike (striker ["DOUBLE_STRIKE"]) then 2 else 1) *
      getPower (striker ["DOUBLE_STRIKE"]).
Proof.
  apply (resolveCombatDamage_unblocked 0 (unblockedCombat ["DOUBLE_STRIKE"]) _ "p1-c0" "p2"
           (striker ["DOUBLE_STRIKE"]) (plr "p2" 20 createEmptyManaPool [] [] [wall]));
    [reflexivity|reflexivity|reflexivity|left; reflexivity|reflexivity|vm_compute; reflexivity].
Defined.

(** ** Declaring attackers *)

Lemma declareAttackersLoop_acc (ps : list Player) (act : string) (ids dids : list string)
    (did : string) (fuel i : nat) (acc : list Attacker) (ps' : list Player)
    (acc' : list Attacker) :
  (length ids <= i + fuel)%nat ->
  (forall k, (k < length ids)%nat -> dids !! k = Some did) ->
  declareAttackersLoop ps act ids dids i fuel acc = Ok (ps', acc') ->
  acc' = acc ++ map (fun cid => mkAttacker cid did []) (drop i ids).
Proof.
  intros Hf Hd. revert ps i acc Hf.
  induction fuel as [|fuel IH]; intros ps i acc Hf H.
  - cbn [declareAttackersLoop] in H. injection H as _ <-.
    rewrite drop_ge by lia. simpl. rewrite app_nil_r. reflexivity.
  - cbn [declareAttackersLoop] in H.
    destruct (Nat.ltb i (length ids)) eqn:Hi; cbn [negb] in H.
    + apply Nat.ltb_lt in Hi.
      destruct (lookup_lt_is_Some_2 ids i Hi) as [cid Hcid].
      rewrite Hcid, (Hd i Hi) in H. cbn [from_option id] in H.
      destruct (negb (truthyStr (Some cid))); [discriminate|].
      destruct (negb (truthyStr (Some did))); [discriminate|].
      destruct (findPlayer ps act); [|discriminate].
      destruct (find _ _); [|discriminate].
      destruct (negb (canAttack _)); [discriminate|].
      apply IH in H; [|lia]. rewrite H, (drop_S ids cid i Hcid), <- app_assoc.
      reflexivity.
    + injection H as _ <-. apply Nat.ltb_ge in Hi.
      rewrite drop_ge by lia. simpl. rewrite app_nil_r. reflexivity.
Qed.

(** A successful DECLARE_ATTACKERS records exactly the requested creature
    ids, in order, each attacking the player in the next seat
    ([(currentPlayerIndex + 1) mod n]) with no blocker yet; the blockers
    are kept and the combat step becomes declare_blockers. *)
Theorem handleDeclareAttackers_next_seat (now : Z) (st st' : GameState) (pid : string)
    (ids : list string) :
  handleDeclareAttackers now st pid ids = Ok st' ->
  exists dp,
    players st !! Nat.modulo (currentPlayerIndex st + 1) (length (players st)) = Some dp /\
    attackers (combat st') = map (fun cid => mkAttacker cid (p_id dp) []) ids /\
    blockers (combat st') = blockers (combat st) /\
    step (combat st') = Some declare_blockers.
Proof.
  intros H. unfold handleDeclareAttackers in H.
  destruct (negb (String.eqb _ _)); [discriminate|].
  destruct (negb (bool_decide _)); [discriminate|].
  destruct (_ !! _) as [dp|] eqn:Edp; [|discriminate].
  exists dp. split; [reflexivity|].
  unfold declareAttackers in H.
  destruct (negb (bool_decide _)); [discriminate|].
  destruct (findPlayer _ _); [|discriminate].
  unfold mbind, Result_bind, rbind in H.
  destruct (declareAttackersLoop _ _ _ _ _ _ _) as [[ps' acc']|] eqn:El; [|discriminate].
  injection H as <-. cbn.
  apply (declareAttackersLoop_acc _ _ _ _ (p_id dp)) in El.
  - rewrite El. split; [reflexivity|]. split; reflexivity.
  - lia.
  - intros k Hk. rewrite list_lookup_fmap.
    destruct (lookup_lt_is_Some_2 ids k Hk) as [x Hx]. rewrite Hx. reflexivity.
Qed.

Lemma handleDeclareAttackers_next_seat_witness :
  exists dp,
    players declareState !! Nat.modulo (currentPlayerIndex declareState + 1)
                              (length (players declareState)) = Some dp /\
    attackers (combat declared) = map (fun cid => mkAttacker cid (p_id dp) []) ["p1-c0"] /\
    blockers (combat declared) = blockers (combat declareState) /\
    step (combat declared) = Some declare_blockers.
Proof.
  apply (handleDeclareAttackers_next_seat 0 declareState declared "p1" ["p1-c0"]).
  vm_compute. reflexivity.
Defined.

(** ** Declaring blockers *)

Lemma find_update_first_other {A} (p q : A -> bool) (f : A -> A) (xs : list A) :
  (forall y, q y = true -> p y = false) -> (forall y, p (f y) = p y) ->
  find p (update_first q f xs) = find p xs.
Proof.
  intros Hq Hf. induction xs as [|x xs IH]; [reflexivity|]. simpl.
  destruct (q x) eqn:Ex; simpl.
  - rewrite Hf, (Hq x Ex). reflexivity.
  - destruct (p x); [reflexivity|exact IH].
Qed.

(** The defender's card [bid] (the first one with that id) is tapped. *)
Definition tappedIn (ps : list Player) (defId bid : string) : Prop :=
  exists p c, findPlayer ps defId = Some p /\
    find (cardIs bid) (z_battlefield (zones p)) = Some c /\ isTapped c = true.

Definition tapBlocker (defId bid : string) (ps : list Player) : list Player :=
  updatePlayer ps defId (fun p => updateZones p (fun z =>
    set_battlefield z (update_first (cardIs bid)
      (fun c => set_isTapped c true) (z_battlefield z)))).

Lemma tapBlocker_find (ps : list Player) (defId bid : string) (p : Player) :
  findPlayer ps defId = Some p ->
  exists p', findPlayer (tapBlocker defId bid ps) defId = Some p' /\
    z_battlefield (zones p') =
      update_first (cardIs bid) (fun c => set_isTapped c true) (z_battlefield (zones p)).
Proof.
  intros Hp. unfold tapBlocker. rewrite findPlayer_update_same by reflexivity.
  rewrite Hp. eexists. split; reflexivity.
Qed.

Lemma tapBlocker_tapped (ps : list Player) (defId bid bid0 : string) (p : Player) (c : CardInPlay) :
  findPlayer ps defId = Some p ->
  find (cardIs bid0) (z_battlefield (zones p)) = Some c ->
  tappedIn (tapBlocker defId bid0 ps) defId bid0.
Proof.
  intros Hp Hc. destruct (tapBlocker_find ps defId bid0 p Hp) as (p' & Hp' & Hb).
  exists p', (set_isTapped c true). split; [exact Hp'|]. split; [|reflexivity].
  rewrite Hb, find_update_first by (intros x Hx; exact Hx). rewrite Hc. reflexivity.
Qed.

Lemma tapBlocker_keeps (ps : list Player) (defId bid bid0 : string) :
  tappedIn ps defId bid -> tappedIn (tapBlocker defId bid0 ps) defId bid.
Proof.
  intros (p & c & Hp & Hc & Ht).
  destruct (String.eqb_spec bid bid0) as [->|Hne].
  - exact (tapBlocker_tapped ps defId bid0 bid0 p c Hp Hc).
  - destruct (tapBlocker_find ps defId bid0 p Hp) as (p' & Hp' & Hb).
    exists p', c. split; [exact Hp'|]. split; [|exact Ht].
    rewrite Hb, find_update_first_other; [exact Hc| |reflexivity].
    intros y Hy. unfold cardIs in *. apply String.eqb_eq in Hy. rewrite Hy.
    apply String.eqb_neq. congruence.
Qed.

Lemma declareBlockersLoop_once (blocks : list Block) : forall ps defId b0 ua r,
  declareBlockersLoop ps defId blocks b0 ua = Ok r ->
  NoDup (map blockerId blocks) /\
  forall bid, tappedIn ps defId bid -> bid ∉ map blockerId blocks.
Proof.
  induction blocks as [|[bid0 aid] rest IH]; intros ps defId b0 ua r H.
  - split; [constructor|]. intros bid _ Hin. inversion Hin.
  - cbn [declareBlockersLoop blockerId attackerId] in H.
    destruct (findPlayer ps defId) as [dp|] eqn:Ed; [|discriminate].
    destruct (find (cardIs bid0) _) as [bl|] eqn:Eb; [|discriminate].
    destruct (find (attackerIs aid) ua) as [a|]; [|discriminate].
    destruct (findCard ps aid) as [ac|]; [|discriminate].
    destruct (canBlock bl ac) eqn:Ecb; [|discriminate]. cbn [negb] in H.
    fold (tapBlocker defId bid0 ps) in H.
    destruct (IH _ _ _ _ _ H) as [Hnd Hnot].
    assert (Hfirst : bid0 ∉ map blockerId rest)
      by exact (Hnot bid0 (tapBlocker_tapped ps defId bid0 bid0 dp bl Ed Eb)).
    split.
    + cbn [map blockerId]. constructor; assumption.
    + intros bid Ht. cbn [map blockerId]. apply not_elem_of_cons. split.
      * intros ->. destruct Ht as (p & c & Hp & Hc & Htap).
        rewrite Ed in Hp. injection Hp as <-. rewrite Eb in Hc. injection Hc as <-.
        unfold canBlock in Ecb. rewrite Htap in Ecb.
        destruct (negb _); discriminate.
      * exact (Hnot bid (tapBlocker_keeps ps defId bid bid0 Ht)).
Qed.

(** Declaring a block taps the blocker, and a tapped creature cannot block:
    so a successful [declareBlockers] never names the same blocker twice
    (each creature blocks at most one attacker), and never uses a creature
    of the defender that was already tapped. *)
Theorem declareBlockers_blocker_once (now : Z) (st st' : GameState) (blocks : list Block) :
  declareBlockers now st blocks = Ok st' ->
  NoDup (map blockerId blocks) /\
  forall d bid, findDefender st = Some d -> tappedIn (players st) (p_id d) bid ->
    bid ∉ map blockerId blocks.
Proof.
  intros H. unfold declareBlockers, mbind, Result_bind, rbind in H.
  destruct (negb _); [discriminate|].
  destruct (findDefender st) as [d0|] eqn:Ed; [|discriminate].
  destruct (declareBlockersLoop _ _ _ _ _) as [r|] eqn:El; [|discriminate].
  destruct (declareBlockersLoop_once blocks _ _ _ _ _ El) as [Hnd Hnot].
  split; [exact Hnd|]. intros d bid Hd. assert (d = d0) as -> by congruence. apply Hnot.
Qed.

Lemma declareBlockers_blocker_once_witness :
  declareBlockers 0 blockState [mkBlock "p2-c0" "p1-c0"] = Ok blocked /\
  NoDup (map blockerId [mkBlock "p2-c0" "p1-c0"]) /\
  forall d bid, findDefender blockState = Some d -> tappedIn (players blockState) (p_id d) bid ->
    bid ∉ map blockerId [mkBlock "p2-c0" "p1-c0"].
Proof.
  assert (E : declareBlockers 0 blockState [mkBlock "p2-c0" "p1-c0"] = Ok blocked)
    by (vm_compute; reflexivity).
  split; [exact E|]. exact (declareBlockers_blocker_once 0 blockState blocked _ E).
Defined.

End Extras.
